(** * ccheckpoint: the checkpoint engine of [src/checkpoint.ts]

    A shallow embedding of [CheckpointManager] (create, list, restore,
    cancelRestore, diff, clean, getCurrentCheckpoint and
    parseCommitMessage) together with the parts of [ProjectManager] it
    calls and the relative times of [src/cli.ts], followed by the
    properties of the engine.

    Conventions of the embedding.
    - A JavaScript string is a Rocq [string] holding its UTF-8 text, so the
      ASCII fragments the code tests for ([startsWith], [includes], the
      literal parts of the regular expression) are compared byte by byte.
    - An [async] method is a computation in the monad [M]: it reads and
      updates a [World] (environment, the two directories, the git
      repository of the project, the log of calls) and either returns a
      value or throws.  A throw keeps the effects performed so far.
    - The calls into [isomorphic-git] and [fs-extra] are the primitives of
      the model (modules [Git] and [Fs]); each one appends an [Event] to
      the log of the world, which makes the order of calls observable. *)

From Stdlib Require Import ZArith Ascii String.
From stdpp Require Import base option list gmap fin_maps strings pretty sorting.

#[local] Set Warnings "-clear-no-such-hyp".

Local Open Scope string_scope.
Local Open Scope list_scope.
Local Open Scope Z_scope.

(** ** JavaScript values *)

Module JS.

(** [s.startsWith(prefix)] *)
Fixpoint startsWith (s prefix : string) : bool :=
  match prefix with
  | EmptyString => true
  | String c prefix' =>
      match s with
      | EmptyString => false
      | String d s' => if Ascii.eqb c d then startsWith s' prefix' else false
      end
  end.

(** [s.includes(pattern)] *)
Fixpoint includes (s pattern : string) : bool :=
  startsWith s pattern ||
  match s with
  | EmptyString => false
  | String _ s' => includes s' pattern
  end.

(** The text that follows [prefix] in [s], when [s] starts with it. *)
Fixpoint stripPrefix (prefix s : string) : option string :=
  match prefix with
  | EmptyString => Some s
  | String c prefix' =>
      match s with
      | EmptyString => None
      | String d s' => if Ascii.eqb c d then stripPrefix prefix' s' else None
      end
  end.

(** Truthiness of an optional string: [undefined] and [''] are falsy. *)
Definition truthy_string (v : option string) : bool :=
  match v with
  | Some s => negb (String.eqb s "")
  | None => false
  end.

(** Truthiness of an optional number: [undefined] and [0] are falsy
    (a [NaN] is represented by [None]). *)
Definition truthy_number (v : option Z) : bool :=
  match v with
  | Some n => negb (n =? 0)
  | None => false
  end.

(** [a || b] where [b] is a string that is always present. *)
Definition or_string (a : option string) (b : string) : string :=
  match a with
  | Some s => if truthy_string a then s else b
  | None => b
  end.

(** [a || b] on numbers. *)
Definition or_number (a : option Z) (b : Z) : Z :=
  match a with
  | Some n => if truthy_number a then n else b
  | None => b
  end.

(** An ISO-8601 timestamp string, represented by the instant it denotes
    (milliseconds since the epoch). *)
Inductive IsoString := Iso (ms : Z).

(** [new Date(iso).getTime()] *)
Definition getTime (t : IsoString) : Z := let 'Iso ms := t in ms.

(** The largest time value of a [Date]; beyond it the date is invalid and
    [toISOString] throws a [RangeError]. *)
Definition maxTime : Z := 8640000000000000.

Definition validTime (ms : Z) : bool := (- maxTime <=? ms) && (ms <=? maxTime).

(** [array.slice(0, end)] *)
Definition slice0 {A} (end_ : Z) (l : list A) : list A :=
  if 0 <=? end_ then take (Z.to_nat end_) l
  else take (List.length l - Z.to_nat (- end_)) l.

(** [array.sort(compare)]: the sort of the language is stable, and for a
    consistent comparator its result is the unique stable ordering, which
    insertion from the right computes. *)
Section Sort.
Context {A : Type} (compare : A → A → Z).

Fixpoint insert_sorted (x : A) (l : list A) : list A :=
  match l with
  | [] => [x]
  | y :: l' => if compare x y <=? 0 then x :: y :: l' else y :: insert_sorted x l'
  end.

Fixpoint sort (l : list A) : list A :=
  match l with
  | [] => []
  | x :: l' => insert_sorted x (sort l')
  end.
End Sort.

End JS.

(** ** The regular expression of [parseCommitMessage]

    [/^Session: ([a-f0-9-]+) - (.+)$/], matched by backtracking as the
    engine does: the first group is tried from its longest extent down. *)

Module Regex.

Definition char (n : nat) : ascii := ascii_of_nat n.

(** The class [[a-f0-9-]]. *)
Definition hex_or_dash (c : ascii) : bool :=
  let n := nat_of_ascii c in
  ((97 <=? n)%nat && (n <=? 102)%nat) ||
  ((48 <=? n)%nat && (n <=? 57)%nat) ||
  (n =? 45)%nat.

(** Does a line terminator start here?  [.] rejects LF, CR, U+2028 and
    U+2029 (the last two are E2 80 A8 and E2 80 A9 in UTF-8). *)
Definition line_terminator_at (s : string) : bool :=
  JS.startsWith s (String (char 10) "") ||
  JS.startsWith s (String (char 13) "") ||
  JS.startsWith s (String (char 226) (String (char 128) (String (char 168) ""))) ||
  JS.startsWith s (String (char 226) (String (char 128) (String (char 169) ""))).

(** [.*$]: no line terminator up to the end of the input. *)
Fixpoint dots_to_end (s : string) : bool :=
  negb (line_terminator_at s) &&
  match s with
  | EmptyString => true
  | String _ s' => dots_to_end s'
  end.

(** [(.+)$] *)
Definition dot_plus_to_end (s : string) : bool :=
  match s with
  | EmptyString => false
  | String _ _ => dots_to_end s
  end.

(** [([a-f0-9-]+) - (.+)$] on [input], [acc] being the part of the first
    group consumed so far. *)
Fixpoint session_group (acc input : string) : option (string * string) :=
  match input with
  | EmptyString => None
  | String c rest =>
      if hex_or_dash c then
        let acc' := acc +:+ String c "" in
        match session_group acc' rest with
        | Some r => Some r
        | None =>
            match JS.stripPrefix " - " rest with
            | Some text => if dot_plus_to_end text then Some (acc', text) else None
            | None => None
            end
        end
      else None
  end.

(** [message.match(/^Session: ([a-f0-9-]+) - (.+)$/)], giving the two
    groups. *)
Definition match_session (message : string) : option (string * string) :=
  match JS.stripPrefix "Session: " message with
  | Some rest => session_group "" rest
  | None => None
  end.

End Regex.

(** ** Data model *)

(** An object id (a hexadecimal digest). *)
Abbreviation Oid := string (only parsing).

(** A file path relative to a directory, as its segments;
    [a/b.txt] is [["a"; "b.txt"]]. *)
Abbreviation Path := (list string) (only parsing).

(** The regular files below a directory, with their contents.  Directories
    exist through the files they hold. *)
Abbreviation Files := (gmap (list string) string) (only parsing).

(** A commit of the checkpoint repository.  [c_tree] is the committed tree,
    keyed from the checkpoint directory (its files live under
    [snapshots/]); [c_timestamp] is [committer.timestamp], in seconds. *)
Record Commit := mkCommit {
  c_tree : Files;
  c_parent : option Oid;
  c_message : string;
  c_timestamp : Z
}.

Inductive GitObject :=
| ObjBlob (content : string)
| ObjTree (files : Files)
| ObjCommit (c : Commit).

(** The repository [<checkpointDir>/.git]. *)
Record Repo := mkRepo {
  initialized : bool;
  refs : gmap string string;
  objects : gmap string GitObject
}.

(** What the engine takes from outside: the digests of git and the
    successive readings of the system clock (milliseconds). *)
Record Env := mkEnv {
  sha_blob : string → Oid;
  sha_tree : Files → Oid;
  sha_commit : Commit → Oid;
  clock : nat → Z
}.

(** A transcript file, as far as [getPromptIndexFromTranscript] reads it:
    the [role] of each element of [messages]. *)
Inductive TranscriptFile :=
| NotJson
| NoMessages
| Messages (roles : list string).

Inductive Dir := ProjectDir | CheckpointDir | SnapshotsDir.

(** The calls into git and the file system, in the order they are made. *)
Inductive Event :=
| GitInit
| GitAdd
| GitCommit (message : string)
| GitLog
| GitExpandOid (oid : string)
| GitReadCommit (oid : string)
| GitResolveRef (ref : string)
| GitWriteRef (ref value : string)
| GitCheckout (ref : string)
| GitWalk (a b : string)
| FsEnsureDir (d : Dir)
| FsReaddir (d : Dir)
| FsRemove (item : string)
| FsCopy (source dest : Dir)
| ConsoleWarn
| ConsoleError.

Record World := mkWorld {
  w_env : Env;
  cwd : string;
  env_SESSION_ID : option string;
  env_TRANSCRIPT_PATH : option string;
  transcripts : gmap string TranscriptFile;
  project : Files;
  snapshots : Files;
  repo : Repo;
  ticks : nat;
  trace : list Event
}.

(** Errors of the library. *)
Inductive GitError :=
| NotFoundError (what : string)
| AmbiguousError (short : string) (matches : list string)
| ObjectTypeError (oid : string).

(** What a method throws.  [GitOperationFailed name cause] is the
    [Error] of [safeGitOperation], whose message quotes the operation and
    the cause; [CheckpointNotFound id] is [`Checkpoint ${id} not found`];
    [NoRestoreToCancel] is ['No restore to cancel - ORIG_HEAD not found']. *)
Inductive Err :=
| Thrown (e : GitError)
| RangeError
| JsonError
| GitOperationFailed (operationName : string) (cause : Err)
| CheckpointNotFound (id : string)
| NoRestoreToCancel.

Record CheckpointData := mkCheckpointData {
  id : string;
  sessionId : string;
  promptIndex : Z;
  message : string;
  timestamp : JS.IsoString;
  projectPath : string
}.

Record ListOptions := mkListOptions {
  opt_sessionId : option string;
  opt_limit : option Z
}.

Inductive ChangeType := added | deleted | modified.

Record Change := mkChange {
  change_type : ChangeType;
  change_path : string
}.

(** What the host decides about dates: its time zone (the local time of
    an instant and the instant of a local time, both in milliseconds) and
    the text of [toLocaleDateString]. *)
Record Locale := mkLocale {
  localTime : Z → Z;
  utcTime : Z → Z;
  toLocaleDateString : Z → string
}.

(** ** Dates *)

Module Dates.

Definition msPerDay : Z := 86400000.

(** The time value of a [Date] made from [t]; [None] is the invalid
    date. *)
Definition timeClip (t : Z) : option Z :=
  if JS.validTime t then Some t else None.

(** [d.setDate(d.getDate() - days)] on the date [d] of time value [t]:
    the same local time of day, [days] days earlier.  [days] is [None]
    when it is [NaN]. *)
Definition setDate_daysBefore (l : Locale) (t : Z) (days : option Z) : option Z :=
  match days with
  | Some n => timeClip (utcTime l (localTime l t - n * msPerDay))
  | None => None
  end.

(** [a < b] on two dates: false as soon as one of them is invalid. *)
Definition lt (a b : option Z) : bool :=
  match a, b with
  | Some x, Some y => x <? y
  | _, _ => false
  end.

End Dates.

(** ** The monad of asynchronous methods *)

Definition M (A : Type) : Type := World → (Err + A) * World.

Definition throw {A} (e : Err) : M A := λ w, (inl e, w).

Definition try_catch {A} (body : M A) (handler : Err → M A) : M A :=
  λ w, match body w with
       | (inl e, w') => handler e w'
       | (inr a, w') => (inr a, w')
       end.

#[global] Instance M_ret : MRet M := λ A a w, (inr a, w).

#[global] Instance M_bind : MBind M := λ A B f m w,
  match m w with
  | (inl e, w') => (inl e, w')
  | (inr a, w') => f a w'
  end.

(** Updates of one field of the world. *)
Definition add_event (e : Event) (w : World) : World :=
  mkWorld (w_env w) (cwd w) (env_SESSION_ID w) (env_TRANSCRIPT_PATH w)
    (transcripts w) (project w) (snapshots w) (repo w) (ticks w)
    (trace w ++ [e]).

Definition set_project (f : Files) (w : World) : World :=
  mkWorld (w_env w) (cwd w) (env_SESSION_ID w) (env_TRANSCRIPT_PATH w)
    (transcripts w) f (snapshots w) (repo w) (ticks w) (trace w).

Definition set_snapshots (f : Files) (w : World) : World :=
  mkWorld (w_env w) (cwd w) (env_SESSION_ID w) (env_TRANSCRIPT_PATH w)
    (transcripts w) (project w) f (repo w) (ticks w) (trace w).

Definition set_repo (r : Repo) (w : World) : World :=
  mkWorld (w_env w) (cwd w) (env_SESSION_ID w) (env_TRANSCRIPT_PATH w)
    (transcripts w) (project w) (snapshots w) r (ticks w) (trace w).

Definition tick (w : World) : World :=
  mkWorld (w_env w) (cwd w) (env_SESSION_ID w) (env_TRANSCRIPT_PATH w)
    (transcripts w) (project w) (snapshots w) (repo w) (S (ticks w)) (trace w).

Definition get_world : M World := λ w, (inr w, w).

Definition emit (e : Event) : M unit := λ w, (inr tt, add_event e w).

Definition put_project (f : Files) : M unit := λ w, (inr tt, set_project f w).

Definition put_snapshots (f : Files) : M unit := λ w, (inr tt, set_snapshots f w).

Definition put_repo (r : Repo) : M unit := λ w, (inr tt, set_repo r w).

(** [Date.now()]: the next reading of the clock. *)
Definition Date_now : M Z := λ w, (inr (clock (w_env w) (ticks w)), tick w).

(** [new Date(ms).toISOString()] *)
Definition toISOString (ms : Z) : M JS.IsoString :=
  if JS.validTime ms then mret (JS.Iso ms) else throw RangeError.

(** A [for ... of] loop whose body is asynchronous. *)
Fixpoint for_each {A} (l : list A) (body : A → M unit) : M unit :=
  match l with
  | [] => mret tt
  | x :: l' => body x ≫= λ _, for_each l' body
  end.

(** ** Paths *)

Module Paths.

(** The segments of a path joined by [/]; the empty path is the
    directory itself. *)
Fixpoint join (p : Path) : string :=
  match p with
  | [] => ""
  | [s] => s
  | s :: p' => s +:+ "/" +:+ join p'
  end.

(** [path.basename] of a relative path. *)
Definition basename (p : Path) : string := List.last p "".

(** The text after the last [/] of an absolute path. *)
Fixpoint basename_of_string_go (cur s : string) : string :=
  match s with
  | EmptyString => cur
  | String c s' =>
      if Ascii.eqb c "/" then basename_of_string_go "" s'
      else basename_of_string_go (cur +:+ String c "") s'
  end.

Definition basename_of_string (s : string) : string :=
  basename_of_string_go "" s.

(** The directories on the way to [p], outermost first, without the
    root: for [a/b/c], [a] and [a/b]. *)
Fixpoint ancestors (p : Path) : list Path :=
  match p with
  | [] => []
  | [_] => []
  | s :: p' => [s] :: map (cons s) (ancestors p')
  end.

(** The files below directory [d], keyed from [d]. *)
Definition subtree (d : Path) (files : Files) : Files :=
  list_to_map
    (omap (λ '(p, content),
             if decide (d `prefix_of` p) then Some (drop (List.length d) p, content)
             else None)
          (map_to_list files)).

(** The files [files], moved below directory [d]. *)
Definition below (d : Path) (files : Files) : Files :=
  list_to_map (map (λ '(p, content), (d ++ p, content)) (map_to_list files)).

(** The names directly inside a directory ([fs.readdir]). *)
Definition items (files : Files) : list string :=
  remove_dups (omap (λ '(p, _), head p) (map_to_list files)).

End Paths.

(** ** The git library

    The operations of [isomorphic-git] the engine calls, on the repository of
    the world.  Object ids are compared as the strings they are.  Every
    file of the snapshots directory is tracked (the engine stages the whole
    directory before each commit), so a forced checkout leaves exactly the
    files of the commit there. *)

Module Git.

Definition set_refs (r : Repo) (refs' : gmap string string) : Repo :=
  mkRepo (initialized r) refs' (objects r).

Definition set_objects (r : Repo) (objects' : gmap string GitObject) : Repo :=
  mkRepo (initialized r) (refs r) objects'.

(** Forty lower-case hexadecimal digits. *)
Definition hex_digit (c : ascii) : bool :=
  let n := nat_of_ascii c in
  ((97 <=? n)%nat && (n <=? 102)%nat) || ((48 <=? n)%nat && (n <=? 57)%nat).

Definition is_sha (s : string) : bool :=
  (String.length s =? 40)%nat && forallb hex_digit (list_ascii_of_string s).

(** [git.init]: creates [.git]; the new repository has no commit, so
    [HEAD] does not resolve yet. *)
Definition init : M unit :=
  emit GitInit;;
  w ← get_world;
  put_repo (mkRepo true (refs (repo w)) (objects (repo w))).

(** The stored ids that start with [short]. *)
Definition matching (short : string) (objs : gmap string GitObject) : list string :=
  List.filter (λ oid, JS.startsWith oid short) (map fst (map_to_list objs)).

(** [git.expandOid]: the single stored object id that starts with
    [short]. *)
Definition expandOid (short : string) : M Oid :=
  emit (GitExpandOid short);;
  w ← get_world;
  match matching short (objects (repo w)) with
  | [] => throw (Thrown (NotFoundError short))
  | [oid] => mret oid
  | results => throw (Thrown (AmbiguousError short results))
  end.

(** [git.readCommit] *)
Definition readCommit (oid : string) : M Commit :=
  emit (GitReadCommit oid);;
  w ← get_world;
  match objects (repo w) !! oid with
  | Some (ObjCommit c) => mret c
  | Some _ => throw (Thrown (ObjectTypeError oid))
  | None => throw (Thrown (NotFoundError oid))
  end.

(** [git.resolveRef] of a ref name. *)
Definition resolveRef (ref : string) : M Oid :=
  emit (GitResolveRef ref);;
  w ← get_world;
  match refs (repo w) !! ref with
  | Some oid => mret oid
  | None => throw (Thrown (NotFoundError ref))
  end.

(** [git.writeRef] with [force: true]. *)
Definition writeRef (ref value : string) : M unit :=
  emit (GitWriteRef ref value);;
  w ← get_world;
  put_repo (set_refs (repo w) (<[ref := value]> (refs (repo w)))).

(** [git.checkout] of commit [ref] with [filepaths: ['snapshots']] and
    [force: true]: the snapshots directory becomes that part of the
    commit's tree.  (The [HEAD] the library stores at the end is the id its
    callers have just written there.) *)
Definition checkout (ref : string) : M unit :=
  emit (GitCheckout ref);;
  w ← get_world;
  match objects (repo w) !! ref with
  | Some (ObjCommit c) => put_snapshots (Paths.subtree ["snapshots"] (c_tree c))
  | Some _ => throw (Thrown (ObjectTypeError ref))
  | None => throw (Thrown (NotFoundError ref))
  end.

(** The blobs [git.add] writes for the files of the snapshots
    directory. *)
Definition blobs_of (e : Env) (files : Files) : gmap string GitObject :=
  list_to_map (map (λ '(_, content), (sha_blob e content, ObjBlob content)) (map_to_list files)).

(** The directories of a tree, the root included. *)
Definition directories (tree : Files) : list Path :=
  [] :: flat_map (λ '(p, _), Paths.ancestors p) (map_to_list tree).

Definition trees_of (e : Env) (tree : Files) : gmap string GitObject :=
  list_to_map
    (map (λ d, (sha_tree e (Paths.subtree d tree), ObjTree (Paths.subtree d tree)))
         (directories tree)).

(** [git.add] with [filepath: '.'] *)
Definition add : M unit :=
  emit GitAdd;;
  w ← get_world;
  put_repo (set_objects (repo w) (objects (repo w) ∪ blobs_of (w_env w) (snapshots w))).

(** [git.commit]: a commit of the staged directory whose parent is the
    commit [HEAD] resolves to, if any, stamped with the clock in seconds.
    The library advances the branch [HEAD] names; the engine stores the
    new id in [HEAD] itself right after. *)
Definition commit (message : string) : M Oid :=
  emit (GitCommit message);;
  now ← Date_now;
  w ← get_world;
  let tree := Paths.below ["snapshots"] (snapshots w) in
  let c := mkCommit tree (refs (repo w) !! "HEAD") message (now `div` 1000) in
  let sha := sha_commit (w_env w) c in
  put_repo (set_objects (repo w)
              (objects (repo w) ∪ trees_of (w_env w) tree ∪ {[ sha := ObjCommit c ]}));;
  mret sha.

(** The history from [oid] along the parent links, at most [n] commits;
    the parent of the last commit taken is not read. *)
Fixpoint log_walk (objs : gmap string GitObject) (n : nat) (oid : string)
  : GitError + list (string * Commit) :=
  match n with
  | O => inr []
  | S n' =>
      match objs !! oid with
      | Some (ObjCommit c) =>
          match c_parent c with
          | None => inr [(oid, c)]
          | Some p =>
              match log_walk objs n' p with
              | inr l => inr ((oid, c) :: l)
              | inl e => inl e
              end
          end
      | Some _ => inl (ObjectTypeError oid)
      | None => inl (NotFoundError oid)
      end
  end.

(** [git.log] with [depth]: from [HEAD], newest first.  A depth that is
    not positive never stops the walk; the number of stored objects then
    bounds it, which is enough as parent links do not form a cycle. *)
Definition log (depth : Z) : M (list (string * Commit)) :=
  emit GitLog;;
  w ← get_world;
  match refs (repo w) !! "HEAD" with
  | None => throw (Thrown (NotFoundError "HEAD"))
  | Some head =>
      let n := if 0 <? depth then Z.to_nat depth else size (objects (repo w)) in
      match log_walk (objects (repo w)) n head with
      | inr l => mret l
      | inl e => throw (Thrown e)
      end
  end.

(** [git.log] without [depth]: the whole history from [HEAD]. *)
Definition log_all : M (list (string * Commit)) :=
  emit GitLog;;
  w ← get_world;
  match refs (repo w) !! "HEAD" with
  | None => throw (Thrown (NotFoundError "HEAD"))
  | Some head =>
      match log_walk (objects (repo w)) (size (objects (repo w))) head with
      | inr l => mret l
      | inl e => throw (Thrown e)
      end
  end.

(** The entries of a tree as a walker sees them: every file and every
    directory of the tree, with its object id. *)
Definition entries_of (e : Env) (tree : Files) : gmap (list string) string :=
  list_to_map
    (flat_map (λ '(p, content),
                 (p, sha_blob e content)
                 :: map (λ d, (d, sha_tree e (Paths.subtree d tree))) (Paths.ancestors p))
              (map_to_list tree)).

(** The tree a walker reads for [ref]: the tree of the commit (or the
    tree) [ref] designates, a full id being taken as it is; a name that
    does not resolve stands for the empty tree. *)
Definition tree_of (r : Repo) (ref : string) : GitError + Files :=
  let oid := if is_sha ref then Some ref else refs r !! ref in
  match oid with
  | None => inr ∅
  | Some oid =>
      match objects r !! oid with
      | Some (ObjCommit c) => inr (c_tree c)
      | Some (ObjTree files) => inr files
      | Some (ObjBlob _) => inl (ObjectTypeError oid)
      | None => inl (NotFoundError oid)
      end
  end.

(** [git.TREE({ ref })] *)
Definition TREE (ref : string) : M Files :=
  w ← get_world;
  match tree_of (repo w) ref with
  | inr tree => mret tree
  | inl e => throw (Thrown e)
  end.

(** [git.walk] over two trees: the callback is invoked for the root and
    for every path present in one of the trees, with the entry of each
    tree or [null].  The order among paths is the library's. *)
Definition walk (a b : string)
  : M (list (list string * option string * option string)) :=
  emit (GitWalk a b);;
  ta ← TREE a;
  tb ← TREE b;
  w ← get_world;
  let ea := entries_of (w_env w) ta in
  let eb := entries_of (w_env w) tb in
  mret (([], Some (sha_tree (w_env w) ta), Some (sha_tree (w_env w) tb))
        :: map (λ p, (p, ea !! p, eb !! p)) (elements (dom ea ∪ dom eb))).

(** The [filepath] handed to the callback. *)
Definition filepath_of (p : Path) : string :=
  match p with
  | [] => "."
  | _ => Paths.join p
  end.

End Git.

(** ** The file system *)

Module Fs.

Definition ensureDir (d : Dir) : M unit := emit (FsEnsureDir d).

(** [fs.pathExists(gitDir)] *)
Definition pathExists_gitDir : M bool :=
  w ← get_world; mret (initialized (repo w)).

(** [fs.readdir(projectPath)] *)
Definition readdir_project : M (list string) :=
  emit (FsReaddir ProjectDir);;
  w ← get_world;
  mret (Paths.items (project w)).

(** [fs.remove(path.join(projectPath, item))] *)
Definition remove_project_item (item : string) : M unit :=
  emit (FsRemove item);;
  w ← get_world;
  put_project (filter (λ kv, head kv.1 ≠ Some item) (project w)).

(** [fs.copy(snapshotsDir, projectPath)]: existing files are
    overwritten. *)
Definition copy_snapshots_to_project : M unit :=
  emit (FsCopy SnapshotsDir ProjectDir);;
  w ← get_world;
  put_project (snapshots w ∪ project w).

(** Does [fs.copy] with [filter] reach the file at [p]?  The filter is
    asked for the source directory, for each directory on the way and
    for the file. *)
Definition reached (keep : Path → bool) (p : Path) : bool :=
  keep [] && forallb keep (Paths.ancestors p) && keep p.

(** [fs.copy(projectPath, snapshotsDir, { filter })] *)
Definition copy_project_to_snapshots (keep : Path → bool) : M unit :=
  emit (FsCopy ProjectDir SnapshotsDir);;
  w ← get_world;
  put_snapshots (filter (λ kv, reached keep kv.1 = true) (project w) ∪ snapshots w).

End Fs.

(** ** ProjectManager *)

Module ProjectManager.

(** [getPromptIndexFromTranscript]: the number of user messages of the
    transcript, or the clock when there is no readable transcript. *)
Definition getPromptIndexFromTranscript (transcriptPath : option string) : M Z :=
  if negb (JS.truthy_string transcriptPath) then Date_now
  else
    r ← try_catch
          (w ← get_world;
           match transcripts w !! default "" transcriptPath with
           | None => mret None
           | Some NotJson => throw JsonError
           | Some NoMessages => mret None
           | Some (Messages roles) =>
               mret (Some (Z.of_nat (List.length (List.filter (String.eqb "user") roles))))
           end)
          (λ _, emit ConsoleWarn;; mret None);
    match r with
    | Some n => mret n
    | None => Date_now
    end.

End ProjectManager.

(** ** CheckpointManager *)

Module CheckpointManager.

Definition safeGitOperation {A} (operation : M A) (operationName : string) : M A :=
  try_catch operation (λ error, throw (GitOperationFailed operationName error)).

(** [process.cwd()] *)
Definition process_cwd : M string := w ← get_world; mret (cwd w).

Definition parseCommitMessage (message oid projectPath : string)
  : M (option CheckpointData) :=
  match Regex.match_session message with
  | Some (sessionMatch1, sessionMatch2) =>
      t1 ← Date_now;
      t2 ← Date_now;
      mret (Some (mkCheckpointData oid sessionMatch1 t1 sessionMatch2 (JS.Iso t2) projectPath))
  | None =>
      t1 ← Date_now;
      t2 ← Date_now;
      mret (Some (mkCheckpointData oid "manual" t1 message (JS.Iso t2) projectPath))
  end.

Definition copyWithIgnore (ignorePatterns : list string) : M unit :=
  w ← get_world;
  let filter (src : Path) : bool :=
    let relativePath := Paths.join src in
    let basename :=
      match src with
      | [] => Paths.basename_of_string (cwd w)
      | _ => Paths.basename src
      end in
    negb (existsb (λ pattern,
                     JS.includes relativePath pattern || JS.includes basename pattern)
                  ignorePatterns) in
  Fs.copy_project_to_snapshots filter.

Definition syncProjectToSnapshots : M unit :=
  Fs.ensureDir SnapshotsDir;;
  let ignorePatterns :=
    ["node_modules"; ".git"; ".ccheckpoint"; "dist"; "build"; ".env*"; "*.log";
     ".DS_Store"] in
  copyWithIgnore ignorePatterns.

(** The items of the project directory that a restore leaves alone. *)
Definition restoreIgnorePatterns : list string :=
  ["node_modules"; ".git"; ".ccheckpoint"].

Definition syncSnapshotsToProject : M unit :=
  items ← Fs.readdir_project;
  let ignorePatterns := restoreIgnorePatterns in
  for_each items (λ item,
    if negb (existsb (λ pattern, JS.includes item pattern) ignorePatterns)
    then Fs.remove_project_item item
    else mret tt);;
  Fs.copy_snapshots_to_project.

Definition create (message : string) (sessionId : option string)
    (promptIndex : option Z) : M CheckpointData :=
  projectPath ← process_cwd;
  w ← get_world;
  let hookSessionId := env_SESSION_ID w in
  let transcriptPath := env_TRANSCRIPT_PATH w in
  let finalSessionId := JS.or_string hookSessionId (JS.or_string sessionId "manual") in
  finalPromptIndex ←
    (if JS.truthy_number promptIndex then mret (default 0 promptIndex)
     else ProjectManager.getPromptIndexFromTranscript transcriptPath);
  Fs.ensureDir CheckpointDir;;
  gitDirExists ← Fs.pathExists_gitDir;
  (if negb gitDirExists then Git.init else mret tt);;
  syncProjectToSnapshots;;
  safeGitOperation Git.add "add files to staging";;
  sha ← safeGitOperation (Git.commit message) "create commit";
  safeGitOperation (Git.writeRef "HEAD" sha) "update HEAD reference";;
  now ← Date_now;
  mret (mkCheckpointData sha finalSessionId finalPromptIndex message (JS.Iso now)
          projectPath).

Definition set_timestamp (cp : CheckpointData) (t : JS.IsoString) : CheckpointData :=
  mkCheckpointData (id cp) (sessionId cp) (promptIndex cp) (message cp) t
    (projectPath cp).

(** The loop of [list] over the commits of the log. *)
Fixpoint collect (commits : list (string * Commit)) (projectPath : string)
  : M (list CheckpointData) :=
  match commits with
  | [] => mret []
  | (oid, c) :: commits' =>
      checkpointData ← parseCommitMessage (c_message c) oid projectPath;
      match checkpointData with
      | Some cp =>
          t ← toISOString (c_timestamp c * 1000);
          rest ← collect commits' projectPath;
          mret (set_timestamp cp t :: rest)
      | None => collect commits' projectPath
      end
  end.

(** The comparator of [list]: newest first. *)
Definition byTimestampDesc (a b : CheckpointData) : Z :=
  JS.getTime (timestamp b) - JS.getTime (timestamp a).

Definition getCurrentCheckpoint : M (option string) :=
  try_catch (currentRef ← Git.resolveRef "HEAD"; mret (Some currentRef))
            (λ _, mret None).

Definition restore (id : string) : M unit :=
  fullId ← try_catch
             (safeGitOperation (Git.expandOid id) "expand commit ID")
             (λ _, throw (CheckpointNotFound id));
  try_catch
    (safeGitOperation (Git.readCommit fullId) "read commit")
    (λ _, throw (CheckpointNotFound id));;
  currentHead ← safeGitOperation (Git.resolveRef "HEAD") "resolve current HEAD";
  safeGitOperation (Git.writeRef "ORIG_HEAD" currentHead) "save ORIG_HEAD";;
  safeGitOperation (Git.writeRef "HEAD" fullId) "reset HEAD to checkpoint";;
  safeGitOperation (Git.checkout fullId) "checkout snapshots from checkpoint";;
  syncSnapshotsToProject.

(** The callback of [diff] for one path of the walk. *)
Definition diffEntry (filepath : string) (A B : option string) : list Change :=
  if String.eqb filepath "." then []
  else
    match A, B with
    | Some _, None => [mkChange deleted filepath]
    | None, Some _ => [mkChange added filepath]
    | Some a, Some b => if negb (String.eqb a b) then [mkChange modified filepath] else []
    | None, None => []
    end.

Definition diff (id : string) : M (list Change) :=
  currentRef ← Git.resolveRef "HEAD";
  try_catch
    (visits ← Git.walk id currentRef;
     mret (flat_map (λ '(p, A, B), diffEntry (Git.filepath_of p) A B) visits))
    (λ _, emit ConsoleError;; mret []).

Definition cancelRestore : M unit :=
  try_catch
    (origHead ← safeGitOperation (Git.resolveRef "ORIG_HEAD") "resolve ORIG_HEAD";
     safeGitOperation (Git.writeRef "HEAD" origHead) "reset to ORIG_HEAD";;
     safeGitOperation (Git.checkout origHead) "checkout snapshots from ORIG_HEAD";;
     syncSnapshotsToProject)
    (λ _, throw NoRestoreToCancel).

Definition clean (l : Locale) (days : option Z) : M Z :=
  now ← Date_now;
  let cutoffDate := Dates.setDate_daysBefore l now days in
  projectPath ← process_cwd;
  try_catch
    (commits ← safeGitOperation Git.log_all "read git history";
     mret (fold_left
             (λ removedCount (commit : string * Commit),
                let commitDate := Dates.timeClip (c_timestamp commit.2 * 1000) in
                if Dates.lt commitDate cutoffDate then removedCount + 1
                else removedCount)
             commits 0))
    (λ _, mret 0).

(** [list] for the current project (the [all] option, which reads every
    project directory instead, is outside this model). *)
Definition list (options : ListOptions) : M (list CheckpointData) :=
  projectPath ← process_cwd;
  r ← try_catch
        (commits ← safeGitOperation
                     (Git.log (JS.or_number (opt_limit options) 100))
                     "read git history";
         checkpoints ← collect commits projectPath;
         mret (Some checkpoints))
        (λ _, mret None);
  match r with
  | None => mret []
  | Some checkpoints =>
      let checkpoints := JS.sort byTimestampDesc checkpoints in
      let filteredCheckpoints :=
        if JS.truthy_string (opt_sessionId options)
        then List.filter
               (λ cp, JS.startsWith (sessionId cp) (default "" (opt_sessionId options)))
               checkpoints
        else checkpoints in
      let filteredCheckpoints :=
        if JS.truthy_number (opt_limit options)
        then JS.slice0 (default 0 (opt_limit options)) filteredCheckpoints
        else filteredCheckpoints in
      mret filteredCheckpoints
  end.

End CheckpointManager.

(** ** The command line ([src/cli.ts]) *)

Module Cli.

(** [getTimeAgo(timestamp)] for the timestamp of a checkpoint. *)
Definition getTimeAgo (l : Locale) (timestamp : JS.IsoString) : M string :=
  now ← Date_now;
  let past := JS.getTime timestamp in
  let diffMs := now - past in
  let diffSeconds := diffMs `div` 1000 in
  let diffMinutes := diffSeconds `div` 60 in
  let diffHours := diffMinutes `div` 60 in
  let diffDays := diffHours `div` 24 in
  mret (if diffSeconds <? 60 then "just now"
        else if diffMinutes =? 1 then "1 minute ago"
        else if diffMinutes <? 60 then pretty diffMinutes +:+ " minutes ago"
        else if diffHours =? 1 then "1 hour ago"
        else if diffHours <? 24 then pretty diffHours +:+ " hours ago"
        else if diffDays =? 1 then "1 day ago"
        else if diffDays <? 7 then pretty diffDays +:+ " days ago"
        else toLocaleDateString l past).

End Cli.

(** ** Vocabulary of the properties *)

Module Parsing.

(** Every character of [s] satisfies [f]. *)
Fixpoint all_chars (f : ascii → bool) (s : string) : bool :=
  match s with
  | EmptyString => true
  | String c s' => f c && all_chars f s'
  end.

(** LF, CR, U+2028 and U+2029. *)
Definition lineTerminators : list string :=
  [String (Regex.char 10) "";
   String (Regex.char 13) "";
   String (Regex.char 226) (String (Regex.char 128) (String (Regex.char 168) ""));
   String (Regex.char 226) (String (Regex.char 128) (String (Regex.char 169) ""))].

(** [message] is [Session: <sid> - <text>] where [sid] is a non-empty run
    of [a-f], [0-9] and [-], and [text] is a non-empty single line. *)
Definition SessionMessage (message sid text : string) : Prop :=
  message = "Session: " +:+ sid +:+ " - " +:+ text ∧
  sid ≠ "" ∧ all_chars Regex.hex_or_dash sid = true ∧
  text ≠ "" ∧ forallb (λ t, negb (JS.includes text t)) lineTerminators = true.

End Parsing.

(** ** Reasoning about computations

    [wp m Q E w]: running [m] from [w] either returns a value and a world
    that satisfy [Q], or throws an error in a world that satisfy [E]. *)

Definition wp {A} (m : M A) (Q : A → World → Prop) (E : Err → World → Prop)
    (w : World) : Prop :=
  match m w with
  | (inr a, w') => Q a w'
  | (inl e, w') => E e w'
  end.

(** No error is acceptable. *)
Definition no_throw : Err → World → Prop := λ _ _, False.



(** ** Vocabulary of restore *)

Module Restore.

(** Is this item of the project directory left alone by a restore? *)
Definition ignored (item : string) : bool :=
  existsb (λ pattern, JS.includes item pattern) CheckpointManager.restoreIgnorePatterns.

(** The path lies inside an item that a restore leaves alone. *)
Definition preserved (p : Path) : bool :=
  match head p with
  | Some item => ignored item
  | None => true
  end.

(** The items a restore removes, in the order of the directory
    listing. *)
Definition removedItems (files : Files) : list string :=
  List.filter (λ item, negb (ignored item)) (Paths.items files).

(** Is the path deleted when the loop of [syncSnapshotsToProject] runs
    over [items]? *)
Definition removed_by (items : list string) (p : Path) : bool :=
  match head p with
  | Some item => bool_decide (item ∈ items) && negb (ignored item)
  | None => false
  end.

(** The world after the loop over [items]. *)
Definition cleaned (items : list string) (w : World) : World :=
  mkWorld (w_env w) (cwd w) (env_SESSION_ID w) (env_TRANSCRIPT_PATH w)
    (transcripts w)
    (filter (λ kv, removed_by items kv.1 = false) (project w))
    (snapshots w) (repo w) (ticks w)
    (trace w ++ map FsRemove (List.filter (λ item, negb (ignored item)) items)).

(** The world after [syncSnapshotsToProject]: the project directory holds
    the files of the snapshots directory and, of its former files, the
    preserved ones. *)
Definition synced (w : World) : World :=
  mkWorld (w_env w) (cwd w) (env_SESSION_ID w) (env_TRANSCRIPT_PATH w)
    (transcripts w)
    (snapshots w ∪ filter (λ kv, preserved kv.1 = true) (project w))
    (snapshots w) (repo w) (ticks w)
    (trace w ++ FsReaddir ProjectDir
                :: map FsRemove (removedItems (project w))
                ++ [FsCopy SnapshotsDir ProjectDir]).

(** Only the log of calls may differ between the two worlds. *)
Definition unchanged (w w' : World) : Prop :=
  project w' = project w ∧ snapshots w' = snapshots w ∧ repo w' = repo w.

(** The calls of a [restore] of [id] that resolves to [fullId] while
    [HEAD] is [currentHead], with the items [removed] from the project. *)
Definition calls (id fullId currentHead : string) (removed : list string)
  : list Event :=
  [GitExpandOid id; GitReadCommit fullId; GitResolveRef "HEAD";
   GitWriteRef "ORIG_HEAD" currentHead; GitWriteRef "HEAD" fullId;
   GitCheckout fullId; FsReaddir ProjectDir]
  ++ map FsRemove removed ++ [FsCopy SnapshotsDir ProjectDir].




(** The calls of a [cancelRestore] back to [origHead]. *)
Definition cancel_calls (origHead : string) (removed : list string) : list Event :=
  [GitResolveRef "ORIG_HEAD"; GitWriteRef "HEAD" origHead; GitCheckout origHead;
   FsReaddir ProjectDir]
  ++ map FsRemove removed ++ [FsCopy SnapshotsDir ProjectDir].

(** The files a checkout of commit [c] puts in the snapshots directory. *)
Definition snapshot_of (c : Commit) : Files := Paths.subtree ["snapshots"] (c_tree c).

(** The project directory after materialising [files] over [project]. *)
Definition materialized (files project : Files) : Files :=
  files ∪ filter (λ kv, preserved kv.1 = true) project.

End Restore.

(** ** Vocabulary of list *)

Module Listing.

(** The session id and the text that [parseCommitMessage] reads in a
    message. *)
Definition parsed (message : string) : string * string :=
  match Regex.match_session message with
  | Some groups => groups
  | None => ("manual", message)
  end.

(** The checkpoint [list] makes of a commit, its prompt index being the
    clock reading number [t]. *)
Definition checkpoint_of (e : Env) (t : nat) (projectPath : string)
    (oc : string * Commit) : CheckpointData :=
  mkCheckpointData oc.1 (parsed (c_message oc.2)).1 (clock e t)
    (parsed (c_message oc.2)).2 (JS.Iso (c_timestamp oc.2 * 1000)) projectPath.

(** The checkpoints of the commits of a walk, in the order of the walk;
    each one takes two readings of the clock. *)
Fixpoint checkpoints_of (e : Env) (t : nat) (projectPath : string)
    (commits : list (string * Commit)) : list CheckpointData :=
  match commits with
  | [] => []
  | oc :: commits' =>
      checkpoint_of e t projectPath oc :: checkpoints_of e (S (S t)) projectPath commits'
  end.

(** The timestamp of every commit is a valid date. *)
Definition valid_dates (commits : list (string * Commit)) : Prop :=
  Forall (λ oc : string * Commit, JS.validTime (c_timestamp oc.2 * 1000) = true) commits.

(** [history objs oid l]: [l] is the whole chain of commits from [oid]
    along the parent links, newest first. *)
Inductive history (objs : gmap string GitObject)
  : string → list (string * Commit) → Prop :=
| history_root oid c :
    objs !! oid = Some (ObjCommit c) → c_parent c = None →
    history objs oid [(oid, c)]
| history_step oid c p l :
    objs !! oid = Some (ObjCommit c) → c_parent c = Some p →
    history objs p l →
    history objs oid ((oid, c) :: l).

(** The instant of a checkpoint, in milliseconds. *)
Definition time (cp : CheckpointData) : Z := JS.getTime (timestamp cp).

(** Newest first: every checkpoint is at least as recent as the ones
    after it. *)
Definition newest_first (l : list CheckpointData) : Prop :=
  StronglySorted (λ a b, time b <= time a) l.

(** The checkpoints of [l] stamped [t], in the order they have in [l]. *)
Definition stamped (t : Z) (l : list CheckpointData) : list CheckpointData :=
  List.filter (λ cp, time cp =? t) l.

Definition listAll : ListOptions := mkListOptions None None.

(** The depth [list] asks of the log. *)
Definition depth (options : ListOptions) : Z := JS.or_number (opt_limit options) 100.

(** The number of commits the log reads at most: a depth that is not
    positive does not bound the walk. *)
Definition walkLength (options : ListOptions) (objs : gmap string GitObject) : nat :=
  if 0 <? depth options then Z.to_nat (depth options) else size objs.

(** What [list] does with the sorted checkpoints: the session filter,
    then the limit. *)
Definition listed (options : ListOptions) (checkpoints : list CheckpointData)
  : list CheckpointData :=
  let filteredCheckpoints :=
    if JS.truthy_string (opt_sessionId options)
    then List.filter
           (λ cp, JS.startsWith (sessionId cp) (default "" (opt_sessionId options)))
           checkpoints
    else checkpoints in
  if JS.truthy_number (opt_limit options)
  then JS.slice0 (default 0 (opt_limit options)) filteredCheckpoints
  else filteredCheckpoints.

(** Is every timestamp of the walk a date? *)
Definition dated (commits : list (string * Commit)) : bool :=
  forallb (λ oc : string * Commit, JS.validTime (c_timestamp oc.2 * 1000)) commits.

(** The checkpoint passes the session filter of the options, if there is
    one. *)
Definition sessionMatches (options : ListOptions) (cp : CheckpointData) : bool :=
  match opt_sessionId options with
  | Some s => if decide (s = "") then true else JS.startsWith (sessionId cp) s
  | None => true
  end.

End Listing.

(** ** Vocabulary of diff *)

Module Diffing.


End Diffing.

(** ** Vocabulary of create *)

Module Creating.

(** A string that is set and not empty. *)
Definition nonempty (v : option string) : option string :=
  match v with
  | Some s => if decide (s = "") then None else Some s
  | None => None
  end.

(** The precedence of session ids: the hook's environment variable, then
    the argument, then ["manual"]. *)
Definition finalSessionId (hook arg : option string) : string :=
  match nonempty hook with
  | Some s => s
  | None =>
      match nonempty arg with
      | Some s => s
      | None => "manual"
      end
  end.

(** The patterns [syncProjectToSnapshots] hands to [copyWithIgnore]. *)
Definition ignorePatterns : list string :=
  ["node_modules"; ".git"; ".ccheckpoint"; "dist"; "build"; ".env*"; "*.log";
   ".DS_Store"].

(** One of the patterns occurs in [s], as a piece of its text. *)
Definition named (s : string) : bool :=
  existsb (λ pattern, JS.includes s pattern) ignorePatterns.

(** The file at [p] goes to the snapshots directory: no pattern occurs in
    its path relative to the project, nor in the name of the project
    directory. *)
Definition kept (projectPath : string) (p : Path) : bool :=
  negb (named (Paths.basename_of_string projectPath)) && negb (named (Paths.join p)).

(** The filter that [copyWithIgnore] gives to [fs.copy] when the project
    directory is [projectPath]. *)
Definition copyFilter (projectPath : string) (src : Path) : bool :=
  negb (existsb
          (λ pattern,
             JS.includes (Paths.join src) pattern
             || JS.includes
                  match src with
                  | [] => Paths.basename_of_string projectPath
                  | _ => Paths.basename src
                  end pattern)
          ignorePatterns).

(** The snapshots directory once [syncProjectToSnapshots] has run from
    [w]: the files of the project that are kept, over what the directory
    held. *)
Definition synced_snapshots (w : World) : Files :=
  filter (λ kv, kept (cwd w) kv.1 = true) (project w) ∪ snapshots w.

(** The commit that [create] writes from [w], stamped [seconds]. *)
Definition commit_of (w : World) (message : string) (seconds : Z) : Commit :=
  mkCommit (Paths.below ["snapshots"] (synced_snapshots w)) (refs (repo w) !! "HEAD")
    message seconds.

(** From [w] to [w'] only the clock and the log of calls moved. *)
Definition same_state (w w' : World) : Prop :=
  w_env w' = w_env w ∧ cwd w' = cwd w ∧ env_SESSION_ID w' = env_SESSION_ID w ∧
  env_TRANSCRIPT_PATH w' = env_TRANSCRIPT_PATH w ∧ transcripts w' = transcripts w ∧
  project w' = project w ∧ snapshots w' = snapshots w ∧ repo w' = repo w.

(** The patterns without a star. *)
Definition plainNames : list string :=
  ["node_modules"; ".git"; ".ccheckpoint"; "dist"; "build"; ".DS_Store"].

(** No star and none of the plain names occurs in [s]. *)
Definition plain (s : string) : bool :=
  negb (JS.includes s "*") && negb (existsb (λ name, JS.includes s name) plainNames).

(** [oid] names no stored object, and no blob or tree can get it as its
    id. *)
Definition fresh_id (w : World) (oid : string) : Prop :=
  objects (repo w) !! oid = None ∧
  (∀ content, sha_blob (w_env w) content ≠ oid) ∧
  (∀ files, sha_tree (w_env w) files ≠ oid).

(** The number of user prompts in the transcript that the environment
    names, when there is such a transcript with a list of messages. *)
Definition userPrompts (w : World) : option Z :=
  match env_TRANSCRIPT_PATH w with
  | Some transcriptPath =>
      if decide (transcriptPath = "") then None
      else
        match transcripts w !! transcriptPath with
        | Some (Messages roles) =>
            Some (Z.of_nat (List.length (List.filter (String.eqb "user") roles)))
        | _ => None
        end
  | None => None
  end.

End Creating.

(** ** Vocabulary of clean *)

Module Cleaning.

(** The cutoff date of a [clean] that starts in [w]. *)
Definition cutoff (l : Locale) (w : World) (days : option Z) : option Z :=
  Dates.setDate_daysBefore l (clock (w_env w) (ticks w)) days.

(** The commit is dated before the cutoff. *)
Definition old (cutoffDate : option Z) (oc : string * Commit) : bool :=
  Dates.lt (Dates.timeClip (c_timestamp oc.2 * 1000)) cutoffDate.

End Cleaning.

(** ** Example worlds *)

Module Examples.

Definition env : Env :=
  mkEnv (λ content, "blob:" +:+ content)
        (λ files, "tree:" +:+ String.concat ";"
                    (map (λ '(p, content), Paths.join p +:+ "=" +:+ content)
                         (map_to_list files)))
        (λ c, "commit:" +:+ c_message c)
        (λ n, 1700000000000 + Z.of_nat n).

Fixpoint zeros (n : nat) : string :=
  match n with
  | O => ""
  | S n' => String "0" (zeros n')
  end.

(** A forty-digit id ending in the digits of [k]. *)
Definition oid (k : nat) : string :=
  zeros (40 - String.length (pretty k)) +:+ pretty k.

Definition world (project snapshots : Files) (r : Repo) : World :=
  mkWorld env "/home/dev/app" None None ∅ project snapshots r 0 [].

(** A fresh project: no repository yet. *)
Definition fresh : World :=
  world {[ ["a.txt"] := "1" ]} ∅ (mkRepo false ∅ ∅).

(** Two checkpoints of [a.txt]; after the second one the file was edited
    again and not checkpointed. *)
Definition v1 : Commit :=
  mkCommit {[ ["snapshots"; "a.txt"] := "1" ]} None "v1" 1700000000.
Definition v2 : Commit :=
  mkCommit {[ ["snapshots"; "a.txt"] := "2" ]} (Some (oid 1)) "v2" 1700000060.

Definition edited : World :=
  world {[ ["a.txt"] := "3" ]} {[ ["a.txt"] := "2" ]}
    (mkRepo true {[ "HEAD" := oid 2 ]}
       {[ oid 1 := ObjCommit v1; oid 2 := ObjCommit v2 ]}).

(** The same history with nothing edited since the second checkpoint. *)
Definition clean : World :=
  world {[ ["a.txt"] := "2" ]} {[ ["a.txt"] := "2" ]}
    (mkRepo true {[ "HEAD" := oid 2 ]}
       {[ oid 1 := ObjCommit v1; oid 2 := ObjCommit v2 ]}).

(** [clean] after a restore of the first checkpoint. *)
Definition restored : World := (CheckpointManager.restore (oid 1) clean).2.



(** The clock went back between two checkpoints: the newer commit carries
    the older timestamp. *)
Definition skewed : World :=
  world ∅ ∅
    (mkRepo true {[ "HEAD" := oid 2 ]}
       {[ oid 1 := ObjCommit (mkCommit ∅ None "first" 1700000200);
          oid 2 := ObjCommit (mkCommit ∅ (Some (oid 1)) "second" 1700000100) ]}).

(** A linear history of [n] commits, [oid 0] being the oldest. *)
Fixpoint chain (n : nat) : gmap string GitObject :=
  match n with
  | O => ∅
  | S k =>
      <[ oid k := ObjCommit (mkCommit ∅ (match k with O => None | S j => Some (oid j) end)
                               ("checkpoint " +:+ pretty k)
                               (1700000000 + Z.of_nat k)) ]> (chain k)
  end.

Definition long : World :=
  world ∅ ∅ (mkRepo true {[ "HEAD" := oid 100 ]} (chain 101)).

(** The walk from [HEAD] in [clean]. *)
Definition clean_walk : list (string * Commit) := [(oid 2, v2); (oid 1, v1)].

(** All the commits of [long], from [HEAD] to the first one. *)
Definition long_history : list (string * Commit) :=
  match Git.log_walk (chain 101) 200 (oid 100) with
  | inr l => l
  | inl _ => []
  end.

(** A project with files of several kinds.  Its snapshots directory
    still holds [old.txt], which an earlier checkpoint copied and which
    was deleted from the project since. *)
Definition v0 : Commit :=
  mkCommit {[ ["snapshots"; "old.txt"] := "1" ]} None "v0" 1700000000.

Definition busy : World :=
  world {[ ["src"; "main.ts"] := "main"; ["src"; "rebuild.ts"] := "tool";
           [".env"] := "KEY=1"; ["debug.log"] := "log"; [".gitignore"] := "dist";
           ["node_modules"; "left-pad"; "index.js"] := "pad" ]}
    {[ ["old.txt"] := "1" ]}
    (mkRepo true {[ "HEAD" := oid 1 ]} {[ oid 1 := ObjCommit v0 ]}).


(** Three checkpoints, two of them made in sessions. *)
Definition sessions : World :=
  world ∅ ∅
    (mkRepo true {[ "HEAD" := oid 3 ]}
       {[ oid 1 := ObjCommit (mkCommit ∅ None "Session: abc12345 - add tests"
                                1700000000);
          oid 2 := ObjCommit (mkCommit ∅ (Some (oid 1)) "manual note" 1700000060);
          oid 3 := ObjCommit (mkCommit ∅ (Some (oid 2)) "Session: abd00000 - refactor"
                                1700000120) ]}).

(** A host on universal time. *)
Definition utc : Locale := mkLocale (λ t, t) (λ t, t) (λ _, "1/1/2024").

(** The checkpoint that [create "fix" "abc123"] returns in [busy], and
    the world it leaves. *)
Definition busy_checkpoint : CheckpointData :=
  mkCheckpointData "commit:fix" "abc123" 1700000000000 "fix" (JS.Iso 1700000000002)
    "/home/dev/app".

Definition busy_after : World :=
  (CheckpointManager.create "fix" (Some "abc123") None busy).2.

(** The undo slot names a commit that is not in the store. *)
Definition dangling : World :=
  world {[ ["a.txt"] := "2" ]} {[ ["a.txt"] := "2" ]}
    (mkRepo true {[ "HEAD" := oid 2; "ORIG_HEAD" := oid 9 ]}
       {[ oid 1 := ObjCommit v1; oid 2 := ObjCommit v2 ]}).

(** The walk from [HEAD] in [sessions]. *)
Definition sessions_history : list (string * Commit) :=
  match Git.log_walk (objects (repo sessions)) 100 (oid 3) with
  | inr l => l
  | inl _ => []
  end.

(** A history whose first commit carries a timestamp beyond the range of
    dates. *)
Definition undated_walk : list (string * Commit) :=
  [(oid 2, mkCommit ∅ (Some (oid 1)) "second" 1700000060);
   (oid 1, mkCommit ∅ None "first" 9000000000000000)].

Definition undated : World :=
  world ∅ ∅
    (mkRepo true {[ "HEAD" := oid 2 ]}
       {[ oid 1 := ObjCommit (mkCommit ∅ None "first" 9000000000000000);
          oid 2 := ObjCommit (mkCommit ∅ (Some (oid 1)) "second" 1700000060) ]}).

(** The checkpoint that [create "v3"] returns in [restored], and the
    world it leaves. *)
Definition forked_checkpoint : CheckpointData :=
  mkCheckpointData "commit:v3" "manual" 1700000000000 "v3" (JS.Iso 1700000000002)
    "/home/dev/app".

Definition forked : World :=
  (CheckpointManager.create "v3" None None restored).2.

(** What a call returned, if it did not throw. *)
Definition returned {A} (r : (Err + A) * World) : option A :=
  match r.1 with
  | inr a => Some a
  | inl _ => None
  end.

(** The ids of the checkpoints a call returned. *)
Definition ids (r : Err + list CheckpointData) : option (list string) :=
  match r with
  | inr l => Some (map id l)
  | inl _ => None
  end.

End Examples.

(** ** Strings and the regular expression *)

Section RegexFacts.

Lemma append_cons c (s t : string) : String c s +:+ t = String c (s +:+ t).
Proof. reflexivity. Qed.

Lemma append_nil_l (t : string) : "" +:+ t = t.
Proof. reflexivity. Qed.

Lemma stripPrefix_Some prefix s r :
  JS.stripPrefix prefix s = Some r ↔ s = prefix +:+ r.
Proof.
  revert s. induction prefix as [|c prefix IH]; intros s; simpl.
  - rewrite append_nil_l. split; [intros [= ->] | intros ->]; done.
  - rewrite append_cons. destruct s as [|d s]; [split; discriminate|].
    destruct (Ascii.eqb_spec c d) as [->|Hne].
    + rewrite IH. split; [intros ->; done | intros [= ->]; done].
    + split; [discriminate | intros [= -> _]; done].
Qed.

Lemma append_assoc_char (acc : string) c run :
  (acc +:+ String c "") +:+ run = acc +:+ String c run.
Proof. induction acc as [|a acc IH]; [done | rewrite !append_cons; by f_equal]. Qed.

Lemma append_empty_r (s : string) : s +:+ "" = s.
Proof. induction s as [|a s IH]; [done | rewrite !append_cons; by f_equal]. Qed.

Lemma dots_to_end_spec s :
  Regex.dots_to_end s = true ↔
  forallb (λ t, negb (JS.includes s t)) Parsing.lineTerminators = true.
Proof.
  induction s as [|c s IH].
  - simpl. done.
  - change (Regex.dots_to_end (String c s))
      with (negb (Regex.line_terminator_at (String c s)) && Regex.dots_to_end s).
    rewrite andb_true_iff, IH. unfold Regex.line_terminator_at, Parsing.lineTerminators.
    cbn [forallb JS.includes].
    rewrite !andb_true_iff, !negb_true_iff, !orb_false_iff. tauto.
Qed.

Lemma dot_plus_to_end_spec s :
  Regex.dot_plus_to_end s = true ↔
  s ≠ "" ∧ forallb (λ t, negb (JS.includes s t)) Parsing.lineTerminators = true.
Proof.
  rewrite <- dots_to_end_spec. destruct s as [|c s].
  - split; [discriminate | intros [? _]; done].
  - unfold Regex.dot_plus_to_end. split; [intros H; split; [discriminate | exact H] | tauto].
Qed.

Lemma session_group_spec input : ∀ acc s t,
  Regex.session_group acc input = Some (s, t) ↔
  ∃ run, run ≠ "" ∧ Parsing.all_chars Regex.hex_or_dash run = true ∧
         input = run +:+ " - " +:+ t ∧ s = acc +:+ run ∧
         Regex.dot_plus_to_end t = true.
Proof.
  induction input as [|c rest IH]; intros acc s t.
  - simpl. split; [discriminate|].
    intros (run & _ & _ & Hin & _). destruct run; discriminate.
  - cbn [Regex.session_group].
    (* how a decomposition of the input looks, whatever the branch *)
    assert (∀ run, run ≠ "" → Parsing.all_chars Regex.hex_or_dash run = true →
              String c rest = run +:+ " - " +:+ t →
              Regex.hex_or_dash c = true ∧
              ((run = String c "" ∧ rest = " - " +:+ t) ∨
               (∃ run', run = String c run' ∧ run' ≠ "" ∧
                        Parsing.all_chars Regex.hex_or_dash run' = true ∧
                        rest = run' +:+ " - " +:+ t))) as Hdec.
    { intros [|c' run] Hne Hall Hin; [done|].
      rewrite append_cons in Hin. injection Hin as -> ->.
      simpl in Hall. apply andb_true_iff in Hall as [Hc Hall]. split; [done|].
      destruct run as [|c'' run]; [left; done|].
      right. exists (String c'' run). done. }
    assert (∀ u, Regex.session_group (acc +:+ String c "") (" - " +:+ u) = None) as Hsp.
    { intros u. rewrite !append_cons. reflexivity. }
    destruct (Regex.hex_or_dash c) eqn:Hc.
    + destruct (Regex.session_group (acc +:+ String c "") rest) as [[s' t']|] eqn:Hrec.
      * split.
        -- intros [= -> ->].
           apply IH in Hrec as (run' & Hne & Hall & -> & -> & Hdots).
           exists (String c run'). cbn [Parsing.all_chars]. rewrite Hc, Hall.
           rewrite append_assoc_char, append_cons. done.
        -- intros (run & Hne & Hall & Hin & -> & Hdots).
           destruct (Hdec run Hne Hall Hin) as [_ [[-> ->]|(run' & -> & Hne' & Hall' & ->)]].
           ++ rewrite Hsp in Hrec. discriminate.
           ++ assert (Regex.session_group (acc +:+ String c "") (run' +:+ " - " +:+ t)
                      = Some ((acc +:+ String c "") +:+ run', t)) as E.
              { apply IH. exists run'. done. }
              rewrite E in Hrec. rewrite append_assoc_char in Hrec. done.
      * destruct (JS.stripPrefix " - " rest) as [text|] eqn:Hstrip.
        -- apply stripPrefix_Some in Hstrip as ->.
           destruct (Regex.dot_plus_to_end text) eqn:Hdots.
           ++ split.
              ** intros [= <- <-]. exists (String c ""). cbn [Parsing.all_chars].
                 rewrite Hc. done.
              ** intros (run & Hne & Hall & Hin & -> & Hdots').
                 destruct (Hdec run Hne Hall Hin)
                   as [_ [[-> Ht]|(run' & -> & Hne' & Hall' & Hrest)]].
                 --- apply (inj _) in Ht as ->. done.
                 --- assert (Regex.session_group (acc +:+ String c "") (" - " +:+ text)
                             = Some ((acc +:+ String c "") +:+ run', t)) as E.
                     { apply IH. exists run'. done. }
                     congruence.
           ++ split; [discriminate|].
              intros (run & Hne & Hall & Hin & -> & Hdots').
              destruct (Hdec run Hne Hall Hin)
                as [_ [[-> Ht]|(run' & -> & Hne' & Hall' & Hrest)]].
              ** apply (inj _) in Ht as ->. congruence.
              ** assert (Regex.session_group (acc +:+ String c "") (" - " +:+ text)
                         = Some ((acc +:+ String c "") +:+ run', t)) as E.
                 { apply IH. exists run'. done. }
                 congruence.
        -- split; [discriminate|].
           intros (run & Hne & Hall & Hin & -> & Hdots').
           destruct (Hdec run Hne Hall Hin)
             as [_ [[-> ->]|(run' & -> & Hne' & Hall' & ->)]].
           ++ assert (JS.stripPrefix " - " (" - " +:+ t) = Some t) as E
                by (by apply stripPrefix_Some).
              congruence.
           ++ assert (Regex.session_group (acc +:+ String c "") (run' +:+ " - " +:+ t)
                      = Some ((acc +:+ String c "") +:+ run', t)) as E.
              { apply IH. exists run'. done. }
              congruence.
    + split; [discriminate|].
      intros (run & Hne & Hall & Hin & -> & Hdots').
      destruct (Hdec run Hne Hall Hin) as [? _]. congruence.
Qed.

Lemma match_session_spec message sid text :
  Regex.match_session message = Some (sid, text) ↔ Parsing.SessionMessage message sid text.
Proof.
  unfold Regex.match_session, Parsing.SessionMessage.
  destruct (JS.stripPrefix "Session: " message) as [rest|] eqn:Hstrip.
  - apply stripPrefix_Some in Hstrip as ->.
    rewrite session_group_spec. split.
    + intros (run & Hne & Hall & -> & -> & Hdots).
      apply dot_plus_to_end_spec in Hdots as [? ?]. done.
    + intros (Heq & Hne & Hall & Hne' & Hlt).
      exists sid. repeat split; try done.
      * by apply (inj _) in Heq.
      * apply dot_plus_to_end_spec. done.
  - split; [discriminate|]. intros (Heq & _).
    assert (JS.stripPrefix "Session: " message = Some (sid +:+ " - " +:+ text)) as E
      by (by apply stripPrefix_Some).
    congruence.
Qed.

End RegexFacts.

(** ** Rules of [wp] *)

Section WpRules.
Context {A : Type}.
Implicit Types (Q : A → World → Prop) (E : Err → World → Prop).

Lemma wp_ret a Q E w : Q a w → wp (mret a) Q E w.
Proof. done. Qed.

Lemma wp_throw e Q E w : E e w → wp (throw e) Q E w.
Proof. done. Qed.

Lemma wp_bind {B} (m : M B) (f : B → M A) Q E w :
  wp m (λ b w', wp (f b) Q E w') E w → wp (m ≫= f) Q E w.
Proof. unfold wp, mbind, M_bind. by destruct (m w) as [[e|b] w']. Qed.

Lemma wp_try_catch (m : M A) (h : Err → M A) Q E w :
  wp m Q (λ e w', wp (h e) Q E w') w → wp (try_catch m h) Q E w.
Proof. unfold wp, try_catch. by destruct (m w) as [[e|b] w']. Qed.

Lemma wp_mono (m : M A) Q Q' E E' w :
  wp m Q E w → (∀ a w', Q a w' → Q' a w') → (∀ e w', E e w' → E' e w') →
  wp m Q' E' w.
Proof. unfold wp. destruct (m w) as [[e|b] w']; auto. Qed.

Lemma wp_returns (m : M A) Q w :
  wp m Q no_throw w → ∃ a w', m w = (inr a, w') ∧ Q a w'.
Proof. unfold wp. destruct (m w) as [[e|b] w']; [done | eauto]. Qed.

Lemma wp_eq (m : M A) r w :
  wp m (λ a w', (inr a, w') = r) (λ e w', (inl e, w') = r) w → m w = r.
Proof. unfold wp. by destruct (m w) as [[e|b] w']. Qed.

Lemma wp_of_eq (m : M A) a w' Q E w : m w = (inr a, w') → Q a w' → wp m Q E w.
Proof. unfold wp. by intros ->. Qed.

End WpRules.

Lemma wp_get_world (Q : World → World → Prop) E w : Q w w → wp get_world Q E w.
Proof. done. Qed.

Lemma wp_emit e (Q : unit → World → Prop) E w : Q tt (add_event e w) → wp (emit e) Q E w.
Proof. done. Qed.

Lemma wp_put_project f (Q : unit → World → Prop) E w :
  Q tt (set_project f w) → wp (put_project f) Q E w.
Proof. done. Qed.

Lemma wp_put_snapshots f (Q : unit → World → Prop) E w :
  Q tt (set_snapshots f w) → wp (put_snapshots f) Q E w.
Proof. done. Qed.

Lemma wp_put_repo r (Q : unit → World → Prop) E w :
  Q tt (set_repo r w) → wp (put_repo r) Q E w.
Proof. done. Qed.

Lemma wp_Date_now (Q : Z → World → Prop) E w :
  Q (clock (w_env w) (ticks w)) (tick w) → wp Date_now Q E w.
Proof. done. Qed.

Lemma wp_safeGitOperation {A} (operation : M A) name Q E w :
  wp operation Q (λ e w', E (GitOperationFailed name e) w') w →
  wp (CheckpointManager.safeGitOperation operation name) Q E w.
Proof. intros H. apply wp_try_catch. eapply wp_mono; [exact H | done | done]. Qed.

Lemma wp_returns_unit (m : M unit) (Q : World → Prop) w :
  wp m (λ _ w', Q w') no_throw w → ∃ w', m w = (inr tt, w') ∧ Q w'.
Proof. unfold wp. destruct (m w) as [[e|[]] w']; [done | eauto]. Qed.

Lemma wp_throws {A} (m : M A) E w :
  wp m (λ _ _, False) E w → ∃ e w', m w = (inl e, w') ∧ E e w'.
Proof. unfold wp. destruct (m w) as [[e|b] w']; [eauto | done]. Qed.

(** One step of symbolic execution. *)
Ltac wp_step :=
  lazymatch goal with
  | |- wp (mbind _ _) _ _ _ => apply wp_bind
  | |- wp (mret _) _ _ _ => apply wp_ret
  | |- wp (throw _) _ _ _ => apply wp_throw
  | |- wp (try_catch _ _) _ _ _ => apply wp_try_catch
  | |- wp get_world _ _ _ => apply wp_get_world
  | |- wp (emit _) _ _ _ => apply wp_emit
  | |- wp (put_project _) _ _ _ => apply wp_put_project
  | |- wp (put_snapshots _) _ _ _ => apply wp_put_snapshots
  | |- wp (put_repo _) _ _ _ => apply wp_put_repo
  | |- wp Date_now _ _ _ => apply wp_Date_now
  | |- wp (CheckpointManager.safeGitOperation _ _) _ _ _ => apply wp_safeGitOperation
  end.

(** The fields of a world and of its repository. *)
Ltac world_cbn :=
  cbn [w_env cwd env_SESSION_ID env_TRANSCRIPT_PATH transcripts project snapshots
       repo ticks trace add_event set_project set_snapshots set_repo tick
       refs objects initialized Git.set_refs Git.set_objects
       Restore.cleaned Restore.synced].

(** Rewriting with the equations that give the fields of the named
    worlds. *)
Ltac rewrite_field proj :=
  match goal with
  | |- context [proj ?w] => match goal with Heq : proj w = _ |- _ => rewrite Heq end
  end.

Ltac rewrite_repo_field proj :=
  match goal with
  | |- context [proj (repo ?w)] =>
      match goal with Heq : proj (repo w) = _ |- _ => rewrite Heq end
  end.

Ltac world_rewrite :=
  repeat
    first [ rewrite_field w_env | rewrite_field cwd | rewrite_field env_SESSION_ID
          | rewrite_field env_TRANSCRIPT_PATH | rewrite_field transcripts
          | rewrite_field project | rewrite_field snapshots | rewrite_field ticks
          | rewrite_field trace | rewrite_repo_field refs | rewrite_repo_field objects
          | rewrite_repo_field initialized ].

Ltac rewrite_field_in H proj :=
  match type of H with
  | context [proj ?w] =>
      match goal with
      | Heq : proj w = _ |- _ => tryif constr_eq Heq H then fail else rewrite Heq in H
      end
  end.

Ltac rewrite_repo_field_in H proj :=
  match type of H with
  | context [proj (repo ?w)] =>
      match goal with
      | Heq : proj (repo w) = _ |- _ =>
          tryif constr_eq Heq H then fail else rewrite Heq in H
      end
  end.

Ltac world_rewrite_in H :=
  repeat
    first [ rewrite_field_in H w_env | rewrite_field_in H cwd
          | rewrite_field_in H env_SESSION_ID | rewrite_field_in H env_TRANSCRIPT_PATH
          | rewrite_field_in H transcripts | rewrite_field_in H project
          | rewrite_field_in H snapshots | rewrite_field_in H ticks
          | rewrite_field_in H trace | rewrite_repo_field_in H refs
          | rewrite_repo_field_in H objects | rewrite_repo_field_in H initialized ].

(** The world reached so far gets a name and is known by its fields only,
    each of them expressed from the initial world. *)
Ltac world_field f w' W :=
  let lhs := eval cbv beta in (f w') in
  let t := eval cbv beta in (f W) in
  let rhs := eval cbn [w_env cwd env_SESSION_ID env_TRANSCRIPT_PATH transcripts
                       project snapshots repo ticks trace
                       add_event set_project set_snapshots set_repo tick
                       refs objects initialized Git.set_refs Git.set_objects
                       Restore.cleaned Restore.synced]
             in t in
  let H := fresh "Hw" in
  assert (lhs = rhs) as H by reflexivity;
  world_rewrite_in H.

Ltac name_world W :=
  let w' := fresh "w" in
  set (w' := W);
  world_field w_env w' W; world_field cwd w' W;
  world_field env_SESSION_ID w' W; world_field env_TRANSCRIPT_PATH w' W;
  world_field transcripts w' W; world_field project w' W;
  world_field snapshots w' W; world_field ticks w' W;
  world_field trace w' W;
  world_field (λ w, refs (repo w)) w' W;
  world_field (λ w, objects (repo w)) w' W;
  world_field (λ w, initialized (repo w)) w' W;
  clearbody w'.

Ltac wp_name :=
  lazymatch goal with
  | |- wp _ _ _ ?W => first [is_var W | name_world W]
  | |- _ => idtac
  end.

Ltac wp_steps := repeat (wp_step; wp_name).

(** ** The frame of a ref *)

Section Untouched.
Variable name : string.




End Untouched.

(** ** [create] *)

Section Create.



End Create.

(** ** [syncSnapshotsToProject] *)

Section Sync.

Lemma world_eta w :
  mkWorld (w_env w) (cwd w) (env_SESSION_ID w) (env_TRANSCRIPT_PATH w)
    (transcripts w) (project w) (snapshots w) (repo w) (ticks w) (trace w) = w.
Proof. by destruct w. Qed.

Lemma world_eq w1 w2 :
  w_env w1 = w_env w2 → cwd w1 = cwd w2 →
  env_SESSION_ID w1 = env_SESSION_ID w2 →
  env_TRANSCRIPT_PATH w1 = env_TRANSCRIPT_PATH w2 →
  transcripts w1 = transcripts w2 → project w1 = project w2 →
  snapshots w1 = snapshots w2 → repo w1 = repo w2 → ticks w1 = ticks w2 →
  trace w1 = trace w2 → w1 = w2.
Proof. destruct w1, w2; cbn; by intros -> -> -> -> -> -> -> -> -> ->. Qed.

Lemma repo_eq r1 r2 :
  initialized r1 = initialized r2 → refs r1 = refs r2 → objects r1 = objects r2 →
  r1 = r2.
Proof. destruct r1, r2; cbn; by intros -> -> ->. Qed.

Lemma removed_by_nil p : Restore.removed_by [] p = false.
Proof.
  unfold Restore.removed_by. destruct (head p); [|done].
  rewrite bool_decide_eq_false_2; [done | apply not_elem_of_nil].
Qed.

Lemma removed_by_cons x items p :
  Restore.removed_by (x :: items) p = false ↔
  (head p = Some x → Restore.ignored x = true) ∧ Restore.removed_by items p = false.
Proof.
  unfold Restore.removed_by. destruct (head p) as [item|]; [|naive_solver].
  rewrite !andb_false_iff, !negb_false_iff, !bool_decide_eq_false, elem_of_cons.
  destruct (decide (item = x)) as [->|Hne]; [naive_solver|].
  split; [intros [H|H]; [split; [congruence|tauto] | split; [congruence|tauto]]|].
  intros [_ [H|H]]; [left; tauto | tauto].
Qed.

Ltac fields :=
  cbn [w_env cwd env_SESSION_ID env_TRANSCRIPT_PATH transcripts project snapshots
       repo ticks trace add_event set_project set_snapshots set_repo tick
       Restore.cleaned Restore.synced].

Lemma for_each_remove items : ∀ w,
  for_each items
    (λ item,
       if negb (existsb (λ pattern, JS.includes item pattern)
                  CheckpointManager.restoreIgnorePatterns)
       then Fs.remove_project_item item
       else mret tt) w
  = (inr tt, Restore.cleaned items w).
Proof.
  induction items as [|x items IH]; intros w.
  - cbn [for_each]. unfold mret, M_ret. f_equal. symmetry.
    apply world_eq; fields; try done.
    + apply map_filter_id. intros. apply removed_by_nil.
    + apply app_nil_r.
  - cbn [for_each]. unfold mbind, M_bind.
    fold (Restore.ignored x).
    destruct (Restore.ignored x) eqn:Hx; cbn [negb].
    + unfold mret at 1, M_ret at 1. rewrite IH. f_equal.
      apply world_eq; fields; try done.
      * apply map_filter_ext. intros p c _. cbn [fst].
        rewrite removed_by_cons. naive_solver.
      * cbn [List.filter]. by rewrite Hx.
    + unfold Fs.remove_project_item, mbind, M_bind, emit, get_world, put_project.
      rewrite IH. f_equal. apply world_eq; fields; try done.
      * rewrite map_filter_filter. apply map_filter_ext. intros p c _. cbn [fst].
        rewrite removed_by_cons. rewrite Hx. naive_solver.
      * cbn [List.filter]. rewrite Hx. cbn [negb map]. by rewrite <- app_assoc.
Qed.

Lemma head_in_items (files : gmap (list string) string) p c item :
  files !! p = Some c → head p = Some item → item ∈ Paths.items files.
Proof.
  intros Hp Hhead. unfold Paths.items.
  apply elem_of_remove_dups, list_elem_of_omap.
  exists (p, c). split; [by apply elem_of_map_to_list | done].
Qed.

Lemma syncSnapshotsToProject_run w :
  CheckpointManager.syncSnapshotsToProject w = (inr tt, Restore.synced w).
Proof.
  apply wp_eq.
  unfold CheckpointManager.syncSnapshotsToProject, Fs.readdir_project,
    Fs.copy_snapshots_to_project.
  wp_steps. cbv zeta. wp_steps.
  eapply wp_of_eq; [apply for_each_remove|]. wp_name. wp_steps.
  f_equal. apply world_eq; fields; world_rewrite; try done.
  - f_equal. apply map_filter_ext. intros p c Hp. cbn [fst].
    unfold Restore.removed_by, Restore.preserved.
    destruct (head p) as [item|] eqn:Hhead; [|done].
    rewrite bool_decide_eq_true_2 by (by eapply head_in_items).
    cbn [andb]. by rewrite negb_false_iff.
  - apply repo_eq; by world_rewrite.
  - unfold Restore.removedItems. by rewrite <- !app_assoc.
Qed.

Lemma wp_syncSnapshotsToProject (Q : unit → World → Prop) E w :
  Q tt (Restore.synced w) → wp CheckpointManager.syncSnapshotsToProject Q E w.
Proof. unfold wp. by rewrite syncSnapshotsToProject_run. Qed.

End Sync.

(** ** [restore] and [cancelRestore] *)

Section RestoreRuns.

Ltac unfold_git :=
  unfold Git.expandOid, Git.readCommit, Git.resolveRef, Git.writeRef, Git.checkout.

Ltac unchanged_end :=
  unfold Restore.unchanged; world_rewrite;
  repeat split; try done; apply repo_eq; by world_rewrite.

Lemma restore_ok w x fullId c currentHead :
  Git.matching x (objects (repo w)) = [fullId] →
  objects (repo w) !! fullId = Some (ObjCommit c) →
  refs (repo w) !! "HEAD" = Some currentHead →
  ∃ w',
    CheckpointManager.restore x w = (inr tt, w') ∧
    project w' = Restore.materialized (Restore.snapshot_of c) (project w) ∧
    snapshots w' = Restore.snapshot_of c ∧
    refs (repo w') = <["HEAD" := fullId]> (<["ORIG_HEAD" := currentHead]> (refs (repo w))) ∧
    objects (repo w') = objects (repo w) ∧
    trace w' = trace w
               ++ Restore.calls x fullId currentHead (Restore.removedItems (project w)).
Proof.
  intros Hmatch Hcommit Hhead. apply wp_returns_unit.
  unfold CheckpointManager.restore. unfold_git.
  wp_steps. world_rewrite. rewrite Hmatch. wp_steps.
  world_rewrite. rewrite Hcommit. wp_steps.
  world_rewrite. rewrite Hhead. wp_steps.
  world_rewrite. rewrite Hcommit. wp_steps.
  apply wp_syncSnapshotsToProject. world_cbn. world_rewrite.
  unfold Restore.calls. rewrite <- !app_assoc. done.
Qed.



Lemma cancelRestore_ok w origHead c :
  refs (repo w) !! "ORIG_HEAD" = Some origHead →
  objects (repo w) !! origHead = Some (ObjCommit c) →
  ∃ w',
    CheckpointManager.cancelRestore w = (inr tt, w') ∧
    project w' = Restore.materialized (Restore.snapshot_of c) (project w) ∧
    snapshots w' = Restore.snapshot_of c ∧
    refs (repo w') = <["HEAD" := origHead]> (refs (repo w)) ∧
    objects (repo w') = objects (repo w) ∧
    trace w' = trace w
               ++ Restore.cancel_calls origHead (Restore.removedItems (project w)).
Proof.
  intros Horig Hcommit. apply wp_returns_unit.
  unfold CheckpointManager.cancelRestore. unfold_git.
  wp_steps. world_rewrite. rewrite Horig. wp_steps.
  world_rewrite. rewrite Hcommit. wp_steps.
  apply wp_syncSnapshotsToProject. world_cbn. world_rewrite.
  unfold Restore.cancel_calls. rewrite <- !app_assoc. done.
Qed.

Lemma cancelRestore_absent w :
  refs (repo w) !! "ORIG_HEAD" = None →
  ∃ w',
    CheckpointManager.cancelRestore w = (inl NoRestoreToCancel, w') ∧
    Restore.unchanged w w'.
Proof.
  intros Horig.
  destruct (wp_throws CheckpointManager.cancelRestore
              (λ e w', e = NoRestoreToCancel ∧ Restore.unchanged w w') w)
    as (e & w' & Hrun & -> & Hun); [|eauto].
  unfold CheckpointManager.cancelRestore. unfold_git.
  wp_steps. world_rewrite. rewrite Horig. wp_steps.
  split; [done | unchanged_end].
Qed.

End RestoreRuns.

(** ** The sort of [list] *)

Section SortFacts.
(** A comparator that orders by [key], descending:
    [(a, b) => key(b) - key(a)]. *)
Context {A : Type} (key : A → Z) (compare : A → A → Z).
Hypothesis compare_key : ∀ a b, compare a b = key b - key a.

Lemma insert_sorted_perm x l : JS.insert_sorted compare x l ≡ₚ x :: l.
Proof.
  induction l as [|y l IH]; cbn [JS.insert_sorted]; [done|].
  destruct (compare x y <=? 0); [done|].
  rewrite IH. apply Permutation_swap.
Qed.

Lemma sort_perm l : JS.sort compare l ≡ₚ l.
Proof.
  induction l as [|x l IH]; cbn [JS.sort]; [done|].
  by rewrite insert_sorted_perm, IH.
Qed.

Lemma insert_sorted_sorted x l :
  StronglySorted (λ a b, key b <= key a) l →
  StronglySorted (λ a b, key b <= key a) (JS.insert_sorted compare x l).
Proof.
  induction l as [|y l IH]; cbn [JS.insert_sorted]; intros Hs.
  - repeat constructor.
  - apply StronglySorted_inv in Hs as [Hs Hy].
    destruct (Z.leb_spec (compare x y) 0) as [Hle|Hgt]; rewrite compare_key in *.
    + constructor; [by constructor|].
      constructor; [lia|].
      eapply Forall_impl; [exact Hy|]. cbn. intros; lia.
    + constructor; [by apply IH|].
      rewrite insert_sorted_perm. constructor; [lia | done].
Qed.

Lemma sort_sorted l : StronglySorted (λ a b, key b <= key a) (JS.sort compare l).
Proof.
  induction l as [|x l IH]; cbn [JS.sort]; [constructor|].
  by apply insert_sorted_sorted.
Qed.

Lemma insert_sorted_stable t x l :
  List.filter (λ a, key a =? t) (JS.insert_sorted compare x l)
  = List.filter (λ a, key a =? t) (x :: l).
Proof.
  induction l as [|y l IH]; cbn [JS.insert_sorted]; [done|].
  destruct (Z.leb_spec (compare x y) 0) as [Hle|Hgt]; [done|].
  rewrite compare_key in Hgt. cbn [List.filter] in *. rewrite IH.
  destruct (Z.eqb_spec (key x) t) as [Hx|Hx]; [|done].
  destruct (Z.eqb_spec (key y) t) as [Hy|Hy]; [lia | done].
Qed.

Lemma sort_stable t l :
  List.filter (λ a, key a =? t) (JS.sort compare l) = List.filter (λ a, key a =? t) l.
Proof.
  induction l as [|x l IH]; cbn [JS.sort]; [done|].
  rewrite insert_sorted_stable. cbn [List.filter]. by rewrite IH.
Qed.

Lemma sort_sorted_id l :
  StronglySorted (λ a b, key b <= key a) l → JS.sort compare l = l.
Proof.
  induction l as [|x l IH]; cbn [JS.sort]; intros Hs; [done|].
  apply StronglySorted_inv in Hs as [Hs Hx]. rewrite IH by done.
  destruct l as [|y l]; [done|]. cbn [JS.insert_sorted].
  apply Forall_cons in Hx as [Hy _].
  destruct (Z.leb_spec (compare x y) 0) as [Hle|Hgt]; [done|].
  rewrite compare_key in Hgt. lia.
Qed.
End SortFacts.

(** ** [list] *)

Section ListRuns.

Lemma parseCommitMessage_run msg oid pp w :
  CheckpointManager.parseCommitMessage msg oid pp w
  = (inr (Some (mkCheckpointData oid (Listing.parsed msg).1
                  (clock (w_env w) (ticks w)) (Listing.parsed msg).2
                  (JS.Iso (clock (w_env w) (S (ticks w)))) pp)),
     tick (tick w)).
Proof.
  unfold CheckpointManager.parseCommitMessage, Listing.parsed.
  by destruct (Regex.match_session msg) as [[s t]|].
Qed.

Lemma iter_tick_fields n w :
  w_env (Nat.iter n tick w) = w_env w ∧ cwd (Nat.iter n tick w) = cwd w ∧
  repo (Nat.iter n tick w) = repo w ∧ trace (Nat.iter n tick w) = trace w ∧
  ticks (Nat.iter n tick w) = (n + ticks w)%nat.
Proof.
  induction n as [|n IH]; [done|].
  rewrite Nat.iter_succ. destruct IH as (? & ? & ? & ? & Ht).
  repeat split; cbn [w_env cwd repo trace ticks tick]; try done. rewrite Ht. lia.
Qed.

Lemma collect_run commits : ∀ pp w,
  Listing.valid_dates commits →
  CheckpointManager.collect commits pp w
  = (inr (Listing.checkpoints_of (w_env w) (ticks w) pp commits),
     Nat.iter (2 * List.length commits) tick w).
Proof.
  induction commits as [|[oid c] commits IH]; intros pp w Hvalid; [done|].
  apply Forall_cons in Hvalid as [Hc Hvalid]. cbn [fst snd] in Hc.
  cbn [CheckpointManager.collect]. unfold mbind at 1, M_bind at 1.
  rewrite parseCommitMessage_run.
  unfold mbind at 1, M_bind at 1. unfold toISOString. rewrite Hc.
  unfold mret at 1, M_ret at 1. unfold mbind, M_bind. rewrite IH by done.
  unfold mret, M_ret. cbn [Listing.checkpoints_of]. f_equal.
  replace (2 * List.length ((oid, c) :: commits))%nat
    with (S (S (2 * List.length commits))) by (cbn [List.length]; lia).
  by rewrite !Nat.iter_succ_r.
Qed.

Lemma log_walk_history objs oid l :
  Listing.history objs oid l → ∀ n, Git.log_walk objs n oid = inr (take n l).
Proof.
  induction 1 as [oid c Hc Hp|oid c p l Hc Hp Hl IH]; intros [|n]; try done.
  - cbn [Git.log_walk]. rewrite Hc, Hp. by destruct n.
  - cbn [Git.log_walk]. rewrite Hc, Hp, IH. done.
Qed.

(** [list()] without options: the first hundred commits of the walk from
    [HEAD], re-sorted by timestamp. *)
Lemma list_run w head commits :
  refs (repo w) !! "HEAD" = Some head →
  Git.log_walk (objects (repo w)) 100 head = inr commits →
  Listing.valid_dates commits →
  ∃ w',
    CheckpointManager.list Listing.listAll w
    = (inr (JS.sort CheckpointManager.byTimestampDesc
              (Listing.checkpoints_of (w_env w) (ticks w) (cwd w) commits)),
       w').
Proof.
  intros Hhead Hlog Hvalid.
  destruct (wp_returns (CheckpointManager.list Listing.listAll)
              (λ cps _, cps = JS.sort CheckpointManager.byTimestampDesc
                 (Listing.checkpoints_of (w_env w) (ticks w) (cwd w) commits)) w)
    as (cps & w' & Hrun & ->); [|eauto].
  unfold CheckpointManager.list, CheckpointManager.process_cwd, Git.log.
  wp_steps. world_rewrite. rewrite Hhead.
  change (JS.or_number (opt_limit Listing.listAll) 100) with 100.
  change (0 <? 100) with true. cbv iota.
  change (Z.to_nat 100) with 100%nat. rewrite Hlog. wp_steps.
  eapply wp_of_eq; [by apply collect_run|]. wp_steps.
  cbn [Listing.listAll opt_sessionId opt_limit JS.truthy_string JS.truthy_number].
  wp_steps. by world_rewrite.
Qed.

End ListRuns.

(** ** [diff] *)

Section DiffRuns.






End DiffRuns.

(** * Properties of the engine *)

(** ** parseCommitMessage *)

(** C8, as the code has it: a message [Session: <sid> - <text>] whose [sid]
    is a non-empty run of [a-f], [0-9] and [-] and whose [text] is one
    non-empty line yields that session id and [text] as the message; every
    other message yields the session ["manual"] and the whole message. *)
Theorem parseCommitMessage_session_or_manual (msg oid pp : string) (w : World) :
  (∀ sid text,
     Parsing.SessionMessage msg sid text →
     CheckpointManager.parseCommitMessage msg oid pp w
     = (inr (Some (mkCheckpointData oid sid (clock (w_env w) (ticks w)) text
                     (JS.Iso (clock (w_env w) (S (ticks w)))) pp)),
        tick (tick w))) ∧
  ((∀ sid text, ¬ Parsing.SessionMessage msg sid text) →
     CheckpointManager.parseCommitMessage msg oid pp w
     = (inr (Some (mkCheckpointData oid "manual" (clock (w_env w) (ticks w)) msg
                     (JS.Iso (clock (w_env w) (S (ticks w)))) pp)),
        tick (tick w))).
Proof.
  rewrite parseCommitMessage_run. unfold Listing.parsed. split.
  - intros sid text Hform. apply match_session_spec in Hform. by rewrite Hform.
  - intros Hnone. destruct (Regex.match_session msg) as [[sid text]|] eqn:Hm; [|done].
    apply match_session_spec in Hm. by destruct (Hnone sid text).
Qed.

Lemma parseCommitMessage_session_or_manual_witness :
  Parsing.SessionMessage "Session: 3f2a9c1e - fix the parser" "3f2a9c1e" "fix the parser" ∧
  CheckpointManager.parseCommitMessage "Session: 3f2a9c1e - fix the parser"
    (Examples.oid 7) "/home/dev/app" Examples.fresh
  = (inr (Some (mkCheckpointData (Examples.oid 7) "3f2a9c1e" 1700000000000
                  "fix the parser" (JS.Iso 1700000000001) "/home/dev/app")),
     tick (tick Examples.fresh)).
Proof.
  assert (Parsing.SessionMessage "Session: 3f2a9c1e - fix the parser" "3f2a9c1e"
            "fix the parser") as Hform.
  { repeat split; [discriminate | discriminate]. }
  split; [exact Hform|].
  exact (proj1 (parseCommitMessage_session_or_manual
                  "Session: 3f2a9c1e - fix the parser" (Examples.oid 7)
                  "/home/dev/app" Examples.fresh) _ _ Hform).
Defined.

(** C8 as stated fails: a message of the shape [Session: <sessionId> -
    <text>] whose session id has a character outside [a-f0-9-] is taken as
    a manual checkpoint. *)
Lemma parseCommitMessage_pattern_counterexample :
  "Session: build-7 - nightly" = "Session: " +:+ "build-7" +:+ " - " +:+ "nightly" ∧
  fst (CheckpointManager.parseCommitMessage "Session: build-7 - nightly"
         (Examples.oid 7) "/home/dev/app" Examples.fresh)
  = inr (Some (mkCheckpointData (Examples.oid 7) "manual" 1700000000000
                 "Session: build-7 - nightly" (JS.Iso 1700000000001) "/home/dev/app")).
Proof. split; reflexivity. Qed.

(** ** create *)





(** ** restore *)





(** ** cancelRestore *)

Lemma materialized_idem (files project : gmap (list string) string) :
  Restore.materialized files (Restore.materialized files project)
  = Restore.materialized files project.
Proof.
  unfold Restore.materialized. apply map_eq. intros p.
  rewrite !lookup_union. destruct (files !! p) as [c|] eqn:Hf; [by rewrite !union_Some_l|].
  rewrite !(left_id_L None _). apply option_eq. intros c.
  rewrite !map_lookup_filter_Some, lookup_union_Some_raw, Hf, map_lookup_filter_Some.
  naive_solver.
Qed.


Lemma cancelRestore_bad_commit w origHead :
  refs (repo w) !! "ORIG_HEAD" = Some origHead →
  match objects (repo w) !! origHead with Some (ObjCommit _) => False | _ => True end →
  ∃ w', CheckpointManager.cancelRestore w = (inl NoRestoreToCancel, w').
Proof.
  intros Horig Hobj.
  destruct (wp_throws CheckpointManager.cancelRestore
              (λ e w', e = NoRestoreToCancel) w) as (e & w' & Hrun & ->); [|eauto].
  unfold CheckpointManager.cancelRestore, Git.resolveRef, Git.writeRef, Git.checkout.
  wp_steps. world_rewrite. rewrite Horig. wp_steps. world_rewrite.
  destruct (objects (repo w) !! origHead) as [[| |c]|]; try done; by wp_steps.
Qed.

(** C2, as the code has it: [cancelRestore] throws [No restore to cancel]
    when [ORIG_HEAD] is absent; when it succeeds it leaves [ORIG_HEAD] in
    place, so a second [cancelRestore] right after succeeds too and leaves
    the refs, the objects and both directories as the first one did. *)
Theorem cancelRestore_needs_ORIG_HEAD_and_keeps_it (w : World) :
  (refs (repo w) !! "ORIG_HEAD" = None →
   ∃ w', CheckpointManager.cancelRestore w = (inl NoRestoreToCancel, w') ∧
         Restore.unchanged w w') ∧
  (∀ w1, CheckpointManager.cancelRestore w = (inr tt, w1) →
         refs (repo w1) !! "ORIG_HEAD" = refs (repo w) !! "ORIG_HEAD" ∧
         ∃ w2, CheckpointManager.cancelRestore w1 = (inr tt, w2) ∧
               refs (repo w2) = refs (repo w1) ∧ objects (repo w2) = objects (repo w1) ∧
               project w2 = project w1 ∧ snapshots w2 = snapshots w1).
Proof.
  split; [apply cancelRestore_absent|].
  intros w1 Hrun.
  destruct (refs (repo w) !! "ORIG_HEAD") as [origHead|] eqn:Horig.
  2: { destruct (cancelRestore_absent w Horig) as (w' & Hrun' & _). congruence. }
  destruct (objects (repo w) !! origHead) as [obj|] eqn:Hobj.
  2: { destruct (cancelRestore_bad_commit w origHead Horig) as (w' & Hrun');
         [by rewrite Hobj | congruence]. }
  destruct obj as [content|files|c];
    try (destruct (cancelRestore_bad_commit w origHead Horig) as (w' & Hrun');
         [by rewrite Hobj | congruence]).
  destruct (cancelRestore_ok w origHead c Horig Hobj)
    as (w1' & Hrun1 & Hproj1 & Hsnap1 & Hrefs1 & Hobjs1 & _).
  assert (w1' = w1) as -> by congruence.
  assert (refs (repo w1) !! "ORIG_HEAD" = Some origHead) as Horig1.
  { rewrite Hrefs1. by rewrite lookup_insert_ne. }
  split; [done|].
  destruct (cancelRestore_ok w1 origHead c Horig1) as
    (w2 & Hrun2 & Hproj2 & Hsnap2 & Hrefs2 & Hobjs2 & _); [by rewrite Hobjs1|].
  exists w2. repeat split; try done.
  - by rewrite Hrefs2, Hrefs1, insert_insert_eq.
  - rewrite Hproj2, Hproj1. apply materialized_idem.
  - by rewrite Hsnap2, Hsnap1.
Qed.

Lemma cancelRestore_needs_ORIG_HEAD_and_keeps_it_witness :
  (refs (repo Examples.clean) !! "ORIG_HEAD" = None ∧
   ∃ w', CheckpointManager.cancelRestore Examples.clean = (inl NoRestoreToCancel, w') ∧
         Restore.unchanged Examples.clean w') ∧
  (∃ w1, CheckpointManager.cancelRestore Examples.restored = (inr tt, w1) ∧
         refs (repo w1) !! "ORIG_HEAD" = refs (repo Examples.restored) !! "ORIG_HEAD" ∧
         ∃ w2, CheckpointManager.cancelRestore w1 = (inr tt, w2) ∧
               refs (repo w2) = refs (repo w1) ∧ objects (repo w2) = objects (repo w1) ∧
               project w2 = project w1 ∧ snapshots w2 = snapshots w1).
Proof.
  assert (refs (repo Examples.clean) !! "ORIG_HEAD" = None) as Habsent
    by (vm_compute; reflexivity).
  assert (CheckpointManager.cancelRestore Examples.restored
          = (inr tt, (CheckpointManager.cancelRestore Examples.restored).2)) as Hcancel.
  { assert ((CheckpointManager.cancelRestore Examples.restored).1 = inr tt) as Hfst
      by (vm_compute; reflexivity).
    destruct (CheckpointManager.cancelRestore Examples.restored) as [r w1].
    cbn [fst snd] in *. by rewrite Hfst. }
  split.
  - split; [exact Habsent|].
    exact (proj1 (cancelRestore_needs_ORIG_HEAD_and_keeps_it Examples.clean) Habsent).
  - exists (CheckpointManager.cancelRestore Examples.restored).2.
    split; [exact Hcancel|].
    exact (proj2 (cancelRestore_needs_ORIG_HEAD_and_keeps_it Examples.restored) _ Hcancel).
Defined.

(** C2 as stated fails: after a restore and one [cancelRestore], a second
    [cancelRestore] returns instead of throwing. *)
Lemma cancelRestore_twice_counterexample :
  let w1 := snd (CheckpointManager.restore (Examples.oid 1) Examples.edited) in
  let w2 := snd (CheckpointManager.cancelRestore w1) in
  fst (CheckpointManager.restore (Examples.oid 1) Examples.edited) = inr tt ∧
  fst (CheckpointManager.cancelRestore w1) = inr tt ∧
  fst (CheckpointManager.cancelRestore w2) = inr tt.
Proof. repeat split; vm_compute; reflexivity. Qed.




(** ** list *)

Lemma checkpoints_of_ids e pp commits : ∀ t,
  map id (Listing.checkpoints_of e t pp commits) = map fst commits.
Proof.
  induction commits as [|oc commits IH]; intros t; [done|].
  cbn [Listing.checkpoints_of map]. by rewrite IH.
Qed.

Lemma checkpoints_of_length e pp commits : ∀ t,
  List.length (Listing.checkpoints_of e t pp commits) = List.length commits.
Proof.
  induction commits as [|oc commits IH]; intros t; [done|].
  cbn [Listing.checkpoints_of List.length]. by rewrite IH.
Qed.

Lemma log_walk_complete objs : ∀ n oid l,
  Git.log_walk objs n oid = inr l → (List.length l < n)%nat → Listing.history objs oid l.
Proof.
  induction n as [|n IH]; intros oid l Hwalk Hlen; [lia|].
  cbn [Git.log_walk] in Hwalk.
  destruct (objs !! oid) as [[content|files|c]|] eqn:Hobj; try done.
  destruct (c_parent c) as [p|] eqn:Hp.
  - destruct (Git.log_walk objs n p) as [e|l'] eqn:Hrec; [done|].
    injection Hwalk as <-. cbn [List.length] in Hlen.
    eapply Listing.history_step; [done..|]. apply IH; [done | lia].
  - injection Hwalk as <-. by apply Listing.history_root.
Qed.

(** C5, as the code has it: [list()] takes the walk from [HEAD] and sorts
    it again by commit timestamp, newest first, with a stable sort; the
    checkpoints of one timestamp keep the order of the walk, and the
    result is the walk itself when timestamps never increase along it. *)
Theorem list_sorts_walk_stably (w : World) (head : string)
    (commits : list (string * Commit)) :
  refs (repo w) !! "HEAD" = Some head →
  Git.log_walk (objects (repo w)) 100 head = inr commits →
  Listing.valid_dates commits →
  let walked := Listing.checkpoints_of (w_env w) (ticks w) (cwd w) commits in
  ∃ cps w',
    CheckpointManager.list Listing.listAll w = (inr cps, w') ∧
    map id walked = map fst commits ∧
    cps ≡ₚ walked ∧
    Listing.newest_first cps ∧
    (∀ t, Listing.stamped t cps = Listing.stamped t walked) ∧
    (Listing.newest_first walked → cps = walked).
Proof.
  intros Hhead Hlog Hvalid walked.
  destruct (list_run w head commits Hhead Hlog Hvalid) as (w' & Hrun).
  eexists _, w'. split; [exact Hrun|].
  assert (∀ a b, CheckpointManager.byTimestampDesc a b = Listing.time b - Listing.time a)
    as Hcmp by done.
  split; [apply checkpoints_of_ids|].
  split; [apply sort_perm|].
  split; [by apply (sort_sorted Listing.time)|].
  split; [intros t; by apply (sort_stable Listing.time)|].
  by apply (sort_sorted_id Listing.time).
Qed.

Lemma list_sorts_walk_stably_witness :
  ∃ cps w',
    CheckpointManager.list Listing.listAll Examples.clean = (inr cps, w') ∧
    map id (Listing.checkpoints_of Examples.env 0 "/home/dev/app" Examples.clean_walk)
    = map fst Examples.clean_walk ∧
    cps ≡ₚ Listing.checkpoints_of Examples.env 0 "/home/dev/app" Examples.clean_walk ∧
    Listing.newest_first cps ∧
    (∀ t, Listing.stamped t cps
          = Listing.stamped t
              (Listing.checkpoints_of Examples.env 0 "/home/dev/app" Examples.clean_walk)) ∧
    (Listing.newest_first
       (Listing.checkpoints_of Examples.env 0 "/home/dev/app" Examples.clean_walk) →
     cps = Listing.checkpoints_of Examples.env 0 "/home/dev/app" Examples.clean_walk).
Proof.
  apply (list_sorts_walk_stably Examples.clean (Examples.oid 2) Examples.clean_walk).
  - vm_compute; reflexivity.
  - vm_compute; reflexivity.
  - repeat constructor.
Defined.

(** C5 as stated fails: when the newer commit carries the older timestamp,
    [list()] returns the parent before the child, against the walk. *)
Lemma list_order_counterexample :
  map fst <$> Examples.returned (Git.log 100 Examples.skewed)
  = Some [Examples.oid 2; Examples.oid 1] ∧
  Examples.ids (fst (CheckpointManager.list Listing.listAll Examples.skewed))
  = Some [Examples.oid 1; Examples.oid 2].
Proof. split; vm_compute; reflexivity. Qed.

(** C6, as the code has it: without a limit, [list()] walks at most one
    hundred commits from [HEAD]; it returns the checkpoints of the first
    hundred commits of the history, which are all of them only when the
    history has no more than a hundred. *)
Theorem list_walks_hundred_commits (w : World) (head : string)
    (hist : list (string * Commit)) :
  refs (repo w) !! "HEAD" = Some head →
  Listing.history (objects (repo w)) head hist →
  Listing.valid_dates (take 100 hist) →
  ∃ cps w',
    CheckpointManager.list Listing.listAll w = (inr cps, w') ∧
    cps ≡ₚ Listing.checkpoints_of (w_env w) (ticks w) (cwd w) (take 100 hist) ∧
    map id cps ≡ₚ map fst (take 100 hist) ∧
    List.length cps = Nat.min 100 (List.length hist).
Proof.
  intros Hhead Hhist Hvalid.
  pose proof (log_walk_history _ _ _ Hhist 100%nat) as Hlog.
  destruct (list_run w head (take 100 hist) Hhead Hlog Hvalid) as (w' & Hrun).
  eexists _, w'. split; [exact Hrun|].
  pose proof (sort_perm CheckpointManager.byTimestampDesc
                (Listing.checkpoints_of (w_env w) (ticks w) (cwd w) (take 100 hist)))
    as Hperm.
  split; [exact Hperm|]. split.
  - rewrite Hperm. by rewrite checkpoints_of_ids.
  - rewrite Hperm, checkpoints_of_length, length_take. lia.
Qed.

Lemma list_walks_hundred_commits_witness :
  ∃ cps w',
    CheckpointManager.list Listing.listAll Examples.clean = (inr cps, w') ∧
    cps ≡ₚ Listing.checkpoints_of Examples.env 0 "/home/dev/app"
             (take 100 Examples.clean_walk) ∧
    map id cps ≡ₚ map fst (take 100 Examples.clean_walk) ∧
    List.length cps = Nat.min 100 (List.length Examples.clean_walk).
Proof.
  apply (list_walks_hundred_commits Examples.clean (Examples.oid 2) Examples.clean_walk).
  - vm_compute; reflexivity.
  - apply (log_walk_complete _ 100%nat); [vm_compute; reflexivity | cbn; lia].
  - repeat constructor.
Defined.

(** C6 as stated fails: of a history of 101 commits, [list()] returns 100
    checkpoints and leaves the oldest commit out. *)
Lemma list_unbounded_counterexample :
  Listing.history (objects (repo Examples.long)) (Examples.oid 100) Examples.long_history ∧
  List.length Examples.long_history = 101%nat ∧
  existsb (String.eqb (Examples.oid 0)) (map fst Examples.long_history) = true ∧
  List.length <$> Examples.ids (fst (CheckpointManager.list Listing.listAll Examples.long))
  = Some 100%nat ∧
  existsb (String.eqb (Examples.oid 0))
    <$> Examples.ids (fst (CheckpointManager.list Listing.listAll Examples.long))
  = Some false.
Proof.
  split.
  { apply (log_walk_complete _ 200%nat); [vm_compute; reflexivity|].
    vm_compute. lia. }
  repeat split; vm_compute; reflexivity.
Qed.

(** ** diff *)



(** * Further properties

    Properties of the same functions beyond the ones above, and of the
    functions around them: [getCurrentCheckpoint], [clean], the copy of
    the project into the snapshots directory, and the relative times of
    the command line. *)

(** ** Pieces of text and paths *)

Section Substrings.

Lemma startsWith_app s t pat :
  JS.startsWith s pat = true → JS.startsWith (s +:+ t) pat = true.
Proof.
  revert s. induction pat as [|c pat IH]; intros s.
  { intros _. by destruct (s +:+ t). }
  destruct s as [|d s]; [discriminate|]. rewrite append_cons. cbn [JS.startsWith].
  destruct (Ascii.eqb c d); [apply IH | discriminate].
Qed.

Lemma includes_app_l s t pat :
  JS.includes s pat = true → JS.includes (s +:+ t) pat = true.
Proof.
  induction s as [|c s IH].
  - cbn [JS.includes]. rewrite orb_false_r. intros H.
    destruct pat; [by destruct t | done].
  - rewrite append_cons. cbn [JS.includes]. rewrite !orb_true_iff.
    intros [H|H]; [left | right; by apply IH].
    by apply (startsWith_app (String c s) t).
Qed.

Lemma includes_app_r s t pat :
  JS.includes t pat = true → JS.includes (s +:+ t) pat = true.
Proof.
  intros H. induction s as [|c s IH]; [done|].
  rewrite append_cons. cbn [JS.includes]. rewrite IH. apply orb_true_r.
Qed.

Lemma append_assoc (s t u : string) : (s +:+ t) +:+ u = s +:+ (t +:+ u).
Proof. induction s as [|c s IH]; [done | rewrite !append_cons; by f_equal]. Qed.

Lemma startsWith_append s pat :
  JS.startsWith s pat = true → ∃ r, s = pat +:+ r.
Proof.
  revert s. induction pat as [|a pat IH]; intros s H; [by exists s|].
  destruct s as [|d s]; [done|]. cbn [JS.startsWith] in H.
  destruct (Ascii.eqb_spec a d) as [->|]; [|done].
  destruct (IH s H) as [r ->]. by exists r.
Qed.

(** What occurs in a pattern occurs in every text the pattern occurs
    in. *)
Lemma includes_trans s pat sub :
  JS.includes pat sub = true → JS.includes s pat = true → JS.includes s sub = true.
Proof.
  intros Hsub. induction s as [|c s IH].
  - cbn [JS.includes]. rewrite orb_false_r. by destruct pat.
  - intros H. cbn [JS.includes] in H. apply orb_true_iff in H as [H|H].
    + apply startsWith_append in H as [r ->]. by apply includes_app_l.
    + cbn [JS.includes]. rewrite (IH H). apply orb_true_r.
Qed.

Lemma join_cons s p : p ≠ [] → Paths.join (s :: p) = s +:+ "/" +:+ Paths.join p.
Proof. by destruct p. Qed.

Lemma ancestors_nonempty p d : d ∈ Paths.ancestors p → d ≠ [].
Proof.
  revert d. induction p as [|s p IH]; intros d; [by rewrite elem_of_nil|].
  cbn [Paths.ancestors]. destruct p as [|s' p]; [by rewrite elem_of_nil|].
  rewrite elem_of_cons. intros [->|Hin]; [done|].
  apply list_elem_of_In, in_map_iff in Hin as (d' & <- & _). done.
Qed.

Lemma join_ancestor p d :
  d ∈ Paths.ancestors p → ∃ rest, Paths.join p = Paths.join d +:+ rest.
Proof.
  revert d. induction p as [|s p IH]; intros d; [by rewrite elem_of_nil|].
  cbn [Paths.ancestors]. destruct p as [|s' p]; [by rewrite elem_of_nil|].
  rewrite elem_of_cons. intros [->|Hin].
  - rewrite join_cons by done. by eexists.
  - apply list_elem_of_In, in_map_iff in Hin as (d' & <- & Hin).
    apply list_elem_of_In in Hin.
    pose proof (ancestors_nonempty _ _ Hin) as Hne.
    destruct (IH d' Hin) as [rest Hrest].
    exists rest. rewrite (join_cons s (s' :: p)), (join_cons s d') by done.
    rewrite Hrest. by rewrite !append_assoc.
Qed.

Lemma join_basename p :
  p ≠ [] → ∃ before, Paths.join p = before +:+ Paths.basename p.
Proof.
  induction p as [|s p IH]; [done|]. intros _.
  destruct p as [|s' p]; [by exists ""|].
  destruct IH as [before Hb]; [done|].
  exists (s +:+ "/" +:+ before). rewrite join_cons by done. rewrite Hb.
  unfold Paths.basename. cbn [List.last]. by rewrite !append_assoc.
Qed.

Lemma join_head p item :
  head p = Some item → ∃ rest, Paths.join p = item +:+ rest.
Proof.
  destruct p as [|s p]; [done|]. intros [= ->].
  destruct p as [|s' p]; [exists ""; by rewrite append_empty_r|].
  rewrite join_cons by done. by eexists.
Qed.

End Substrings.

(** ** What [copyWithIgnore] copies *)

Section Copying.

Lemma named_app_l s t : Creating.named s = true → Creating.named (s +:+ t) = true.
Proof.
  unfold Creating.named. rewrite !existsb_exists.
  intros (pat & Hin & H). exists pat. split; [done | by apply includes_app_l].
Qed.

Lemma named_app_r s t : Creating.named t = true → Creating.named (s +:+ t) = true.
Proof.
  unfold Creating.named. rewrite !existsb_exists.
  intros (pat & Hin & H). exists pat. split; [done | by apply includes_app_r].
Qed.

Lemma copyFilter_root projectPath :
  Creating.copyFilter projectPath [] = negb (Creating.named (Paths.basename_of_string projectPath)).
Proof. reflexivity. Qed.

Lemma copyFilter_path projectPath src :
  src ≠ [] → Creating.copyFilter projectPath src = negb (Creating.named (Paths.join src)).
Proof.
  intros Hne. unfold Creating.copyFilter, Creating.named. f_equal.
  destruct (join_basename src Hne) as [before Hb].
  assert (∀ pattern,
            JS.includes (Paths.join src) pattern || JS.includes (Paths.basename src) pattern
            = JS.includes (Paths.join src) pattern) as Hor.
  { intros pattern. destruct (JS.includes (Paths.basename src) pattern) eqn:Hbase;
      [|apply orb_false_r].
    rewrite Hb, (includes_app_r before _ _ Hbase). done. }
  destruct src as [|s src]; [done|].
  induction Creating.ignorePatterns as [|pattern l IH]; [done|].
  cbn [existsb]. by rewrite Hor, IH.
Qed.

Lemma reached_kept projectPath p :
  Fs.reached (Creating.copyFilter projectPath) p = Creating.kept projectPath p.
Proof.
  unfold Fs.reached, Creating.kept. rewrite copyFilter_root.
  destruct p as [|s p].
  { change (Creating.named (Paths.join [])) with false.
    cbn [Paths.ancestors forallb negb]. by rewrite !andb_true_r, andb_diag. }
  rewrite copyFilter_path by done.
  destruct (Creating.named (Paths.join (s :: p))) eqn:Hp;
    [by rewrite !andb_false_r|].
  rewrite andb_true_r. f_equal. apply forallb_forall. intros d Hd.
  apply list_elem_of_In in Hd.
  rewrite copyFilter_path by (by eapply ancestors_nonempty).
  destruct (join_ancestor _ _ Hd) as [rest Hrest].
  destruct (Creating.named (Paths.join d)) eqn:Hnamed; [|done].
  apply (named_app_l _ rest) in Hnamed. congruence.
Qed.

End Copying.

(** ** Trees below a directory *)

Section Subtrees.
Implicit Types (d p : list string) (files : gmap (list string) string).




End Subtrees.

(** ** The whole effect of [create] *)

Section CreateRuns.

Ltac same_state_end :=
  unfold Creating.same_state; world_rewrite; repeat split; try done; apply repo_eq; by world_rewrite.

Lemma getPromptIndexFromTranscript_run w :
  ∃ n w',
    ProjectManager.getPromptIndexFromTranscript (env_TRANSCRIPT_PATH w) w = (inr n, w') ∧
    n = match Creating.userPrompts w with
        | Some k => k
        | None => clock (w_env w) (ticks w)
        end ∧
    Creating.same_state w w'.
Proof.
  apply wp_returns.
  unfold ProjectManager.getPromptIndexFromTranscript, Creating.userPrompts.
  destruct (env_TRANSCRIPT_PATH w) as [path|] eqn:Hpath; cbn [JS.truthy_string negb].
  2: { wp_steps. split; [done | same_state_end]. }
  destruct (String.eqb_spec path "") as [->|Hne]; cbn [negb].
  { rewrite decide_True by done. wp_steps. split; [done | same_state_end]. }
  rewrite decide_False by done. cbn [default from_option Datatypes.id]. wp_steps.
  destruct (transcripts w !! path) as [[| |roles]|];
    wp_steps; cbv beta iota; wp_steps; (split; [by world_rewrite | same_state_end]).
Qed.

Lemma create_effect w msg sid idx :
  ∃ cp w' seconds,
    CheckpointManager.create msg sid idx w = (inr cp, w') ∧
    id cp = sha_commit (w_env w) (Creating.commit_of w msg seconds) ∧
    promptIndex cp = (if JS.truthy_number idx then default 0 idx
                      else match Creating.userPrompts w with
                           | Some k => k
                           | None => clock (w_env w) (ticks w)
                           end) ∧
    projectPath cp = cwd w ∧
    project w' = project w ∧
    snapshots w' = Creating.synced_snapshots w ∧
    refs (repo w') = <["HEAD" := id cp]> (refs (repo w)) ∧
    objects (repo w')
    = objects (repo w) ∪ Git.blobs_of (w_env w) (Creating.synced_snapshots w)
      ∪ Git.trees_of (w_env w) (Paths.below ["snapshots"] (Creating.synced_snapshots w))
      ∪ {[ id cp := ObjCommit (Creating.commit_of w msg seconds) ]} ∧
    w_env w' = w_env w ∧ cwd w' = cwd w.
Proof.
  destruct (wp_returns (CheckpointManager.create msg sid idx)
    (λ cp w', ∃ seconds,
       id cp = sha_commit (w_env w) (Creating.commit_of w msg seconds) ∧
       promptIndex cp = (if JS.truthy_number idx then default 0 idx
                         else match Creating.userPrompts w with
                              | Some k => k
                              | None => clock (w_env w) (ticks w)
                              end) ∧
       projectPath cp = cwd w ∧
       project w' = project w ∧
       snapshots w' = Creating.synced_snapshots w ∧
       refs (repo w') = <["HEAD" := id cp]> (refs (repo w)) ∧
       objects (repo w')
       = objects (repo w) ∪ Git.blobs_of (w_env w) (Creating.synced_snapshots w)
         ∪ Git.trees_of (w_env w) (Paths.below ["snapshots"] (Creating.synced_snapshots w))
         ∪ {[ id cp := ObjCommit (Creating.commit_of w msg seconds) ]} ∧
       w_env w' = w_env w ∧ cwd w' = cwd w) w)
    as (cp & w' & Hrun & seconds & H); [|by exists cp, w', seconds].
  unfold CheckpointManager.create, CheckpointManager.process_cwd. wp_steps.
  world_rewrite.
  assert (∃ n w1,
            (if JS.truthy_number idx then mret (default 0 idx)
             else ProjectManager.getPromptIndexFromTranscript (env_TRANSCRIPT_PATH w)) w
            = (inr n, w1) ∧
            n = (if JS.truthy_number idx then default 0 idx
                 else match Creating.userPrompts w with
                      | Some k => k
                      | None => clock (w_env w) (ticks w)
                      end) ∧
            Creating.same_state w w1) as (n & w1 & Hn & -> & Hsame).
  { destruct (JS.truthy_number idx); [|apply getPromptIndexFromTranscript_run].
    eexists _, w. split; [reflexivity|]. split; [done|]. by repeat split. }
  eapply wp_of_eq; [exact Hn|]. clear Hn.
  destruct Hsame as (He & Hc & Hs & Ht & Htr & Hp & Hsn & Hr).
  assert (refs (repo w1) = refs (repo w)) as Hrefs by (by rewrite Hr).
  assert (objects (repo w1) = objects (repo w)) as Hobjs by (by rewrite Hr).
  assert (initialized (repo w1) = initialized (repo w)) as Hinit by (by rewrite Hr).
  clear Hr.
  unfold Fs.ensureDir, Fs.pathExists_gitDir; wp_steps.
  (match goal with |- wp (if ?b then _ else _) _ _ _ => destruct b end);
    unfold Git.init, CheckpointManager.syncProjectToSnapshots,
      CheckpointManager.copyWithIgnore, Fs.ensureDir,
      Fs.copy_project_to_snapshots, Git.add, Git.commit, Git.writeRef;
    wp_steps.
  all: exists (clock (w_env w) (ticks w1) `div` 1000).
  all: cbn [id promptIndex projectPath]; world_rewrite.
  all: assert (Creating.synced_snapshots w
               = filter (λ kv, Fs.reached (Creating.copyFilter (cwd w)) kv.1 = true) (project w)
                 ∪ snapshots w) as ->
         by (unfold Creating.synced_snapshots; f_equal; apply map_filter_ext;
             intros p c _; by rewrite reached_kept).
  all: unfold Creating.commit_of.
  all: assert (Creating.synced_snapshots w
               = filter (λ kv, Fs.reached (Creating.copyFilter (cwd w)) kv.1 = true) (project w)
                 ∪ snapshots w) as ->
         by (unfold Creating.synced_snapshots; f_equal; apply map_filter_ext;
             intros p c _; by rewrite reached_kept).
  all: repeat split; reflexivity.
Qed.

End CreateRuns.

(** ** What [create] leaves in the store and in the snapshots *)

Section CreateFacts.

Lemma synced_snapshots_lookup w p :
  Creating.synced_snapshots w !! p
  = match project w !! p with
    | Some content => if Creating.kept (cwd w) p then Some content else snapshots w !! p
    | None => snapshots w !! p
    end.
Proof.
  unfold Creating.synced_snapshots.
  destruct (project w !! p) as [content|] eqn:Hp.
  - destruct (Creating.kept (cwd w) p) eqn:Hk.
    + apply lookup_union_Some_l, map_lookup_filter_Some. done.
    + rewrite lookup_union_r; [done|]. apply map_lookup_filter_None. right.
      intros x _. cbn [fst]. congruence.
  - rewrite lookup_union_r; [done|]. apply map_lookup_filter_None. by left.
Qed.

Lemma blobs_of_fresh e files oid :
  (∀ content, sha_blob e content ≠ oid) → Git.blobs_of e files !! oid = None.
Proof.
  intros Hfresh. unfold Git.blobs_of. apply not_elem_of_list_to_map_1. intros Hin.
  apply list_elem_of_fmap in Hin as ([k o] & Hk & Hin). cbn [fst] in Hk. subst k.
  apply list_elem_of_In, in_map_iff in Hin as ([p content] & Heq & _).
  injection Heq as Heq _. by eapply Hfresh.
Qed.

Lemma trees_of_fresh e tree oid :
  (∀ files, sha_tree e files ≠ oid) → Git.trees_of e tree !! oid = None.
Proof.
  intros Hfresh. unfold Git.trees_of. apply not_elem_of_list_to_map_1. intros Hin.
  apply list_elem_of_fmap in Hin as ([k o] & Hk & Hin). cbn [fst] in Hk. subst k.
  apply list_elem_of_In, in_map_iff in Hin as (d & Heq & _).
  injection Heq as Heq _. by eapply Hfresh.
Qed.

(** What a run of [create] that returned [cp] wrote, when the id of [cp]
    was free. *)
Lemma create_commit w msg sid idx cp w' :
  CheckpointManager.create msg sid idx w = (inr cp, w') →
  ∃ seconds,
    id cp = sha_commit (w_env w) (Creating.commit_of w msg seconds) ∧
    snapshots w' = Creating.synced_snapshots w ∧
    project w' = project w ∧
    refs (repo w') = <["HEAD" := id cp]> (refs (repo w)) ∧
    (∀ oid o, objects (repo w) !! oid = Some o → objects (repo w') !! oid = Some o) ∧
    (Creating.fresh_id w (id cp) →
     objects (repo w') !! id cp = Some (ObjCommit (Creating.commit_of w msg seconds))).
Proof.
  intros Hrun.
  destruct (create_effect w msg sid idx)
    as (cp0 & w0 & seconds & Hrun0 & Hid & _ & _ & Hproj & Hsnap & Hrefs & Hobjs & _).
  rewrite Hrun in Hrun0. injection Hrun0 as <- <-.
  exists seconds. repeat split; try done.
  - intros oid o Ho. rewrite Hobjs.
    by do 3 apply lookup_union_Some_l.
  - intros (Hnone & Hblob & Htree). rewrite Hobjs.
    rewrite lookup_union_r; [apply lookup_singleton_eq|].
    apply lookup_union_None. split; [apply lookup_union_None; split|].
    + done.
    + by apply blobs_of_fresh.
    + by apply trees_of_fresh.
Qed.

Lemma plain_not_named s : Creating.plain s = true → Creating.named s = false.
Proof.
  unfold Creating.plain, Creating.named, Creating.plainNames, Creating.ignorePatterns.
  cbn [existsb]. rewrite andb_true_iff, !negb_true_iff, !orb_false_iff.
  intros (Hstar & H1 & H2 & H3 & H4 & H5 & H6 & _).
  repeat split; try done.
  - destruct (JS.includes s ".env*") eqn:H; [|done].
    by rewrite (includes_trans s ".env*" "*") in Hstar.
  - destruct (JS.includes s "*.log") eqn:H; [|done].
    by rewrite (includes_trans s "*.log" "*") in Hstar.
Qed.

End CreateFacts.

(** ** Histories *)

Section Histories.
Implicit Types (objs : gmap string GitObject) (l : list (string * Commit)).

Lemma history_det objs oid l1 : Listing.history objs oid l1 →
  ∀ l2, Listing.history objs oid l2 → l1 = l2.
Proof.
  induction 1 as [oid c Hc Hp|oid c p l Hc Hp Hl IH]; intros l2 H2;
    inversion H2; subst; try congruence.
  assert (c0 = c) as -> by congruence.
  assert (p0 = p) as -> by congruence.
  f_equal. by apply IH.
Qed.

Lemma history_suffix objs oid l : Listing.history objs oid l →
  ∀ l1 oc l2, l = l1 ++ oc :: l2 → Listing.history objs oc.1 (oc :: l2).
Proof.
  induction 1 as [oid c Hc Hp|oid c p l Hc Hp Hl IH]; intros l1 oc l2 Heq.
  - destruct l1 as [|x l1]; [|by destruct l1].
    injection Heq as <- <-. by apply Listing.history_root.
  - destruct l1 as [|x l1].
    + injection Heq as <- <-. by eapply Listing.history_step.
    + injection Heq as _ Heq. by eapply IH.
Qed.

Lemma history_stored objs oid l : Listing.history objs oid l →
  ∀ oc, oc ∈ l → objs !! oc.1 = Some (ObjCommit oc.2).
Proof.
  induction 1 as [oid c Hc Hp|oid c p l Hc Hp Hl IH]; intros oc Hin.
  - apply list_elem_of_singleton in Hin as ->. done.
  - apply elem_of_cons in Hin as [->|Hin]; [done | by apply IH].
Qed.

Lemma history_NoDup objs oid l : Listing.history objs oid l → NoDup (map fst l).
Proof.
  induction 1 as [oid c Hc Hp|oid c p l Hc Hp Hl IH].
  - apply NoDup_singleton.
  - cbn [map fst]. apply NoDup_cons. split; [|done].
    intros Hin. apply list_elem_of_In, in_map_iff in Hin as ([o c'] & Ho & Hin).
    cbn [fst] in Ho. subst o.
    apply in_split in Hin as (l1 & l2 & Heq).
    pose proof (history_suffix _ _ _ Hl _ _ _ Heq) as Hsuf. cbn [fst] in Hsuf.
    assert (Listing.history objs oid ((oid, c) :: l)) as Hfull
      by (by eapply Listing.history_step).
    pose proof (history_det _ _ _ Hsuf _ Hfull) as Hsame.
    injection Hsame as _ Hl2.
    apply (f_equal List.length) in Heq. rewrite Hl2 in Heq.
    rewrite length_app in Heq. cbn [List.length] in Heq. lia.
Qed.

Lemma history_length objs oid l :
  Listing.history objs oid l → (List.length l ≤ size objs)%nat.
Proof.
  intros H. rewrite <- (length_map fst l), <- size_dom.
  unfold size, set_size. cbn. apply submseteq_length, NoDup_submseteq.
  - by eapply history_NoDup.
  - intros o Hin. apply elem_of_elements, elem_of_dom.
    apply list_elem_of_In, in_map_iff in Hin as (oc & <- & Hin).
    apply list_elem_of_In in Hin. rewrite (history_stored _ _ _ H oc Hin). done.
Qed.

(** The walk without a depth reads the whole history. *)
Lemma log_walk_all objs oid l :
  Listing.history objs oid l → Git.log_walk objs (size objs) oid = inr l.
Proof.
  intros H. rewrite (log_walk_history _ _ _ H).
  by rewrite take_ge by (by eapply history_length).
Qed.


End Histories.

(** ** [list] with options *)

(** Only the clock and the log of calls moved up to the world of the
    goal. *)
Ltac quiet_end :=
  unfold Restore.unchanged; world_cbn; world_rewrite;
  repeat split; try done; apply repo_eq; by world_rewrite.

Section ListOptionsRuns.

Lemma unchanged_refl w : Restore.unchanged w w.
Proof. done. Qed.

Lemma unchanged_trans w1 w2 w3 :
  Restore.unchanged w1 w2 → Restore.unchanged w2 w3 → Restore.unchanged w1 w3.
Proof. unfold Restore.unchanged. intros (-> & -> & ->) (-> & -> & ->). done. Qed.

(** The loop of [list] stops at the first commit whose timestamp is not
    a date. *)
Lemma collect_spec commits : ∀ pp w,
  ∃ w',
    CheckpointManager.collect commits pp w
    = (if Listing.dated commits
       then inr (Listing.checkpoints_of (w_env w) (ticks w) pp commits)
       else inl RangeError, w') ∧
    Restore.unchanged w w' ∧ w_env w' = w_env w ∧ cwd w' = cwd w.
Proof.
  unfold Listing.dated.
  induction commits as [|[oid c] commits IH]; intros pp w.
  { exists w. done. }
  cbn [CheckpointManager.collect forallb fst snd]. unfold mbind at 1, M_bind at 1.
  rewrite parseCommitMessage_run.
  unfold mbind at 1, M_bind at 1. unfold toISOString.
  destruct (JS.validTime (c_timestamp c * 1000)) eqn:Hc; cbn [andb].
  - unfold mret at 1, M_ret at 1. unfold mbind, M_bind.
    destruct (IH pp (tick (tick w))) as (w' & Hrun & Hun & He & Hcwd).
    rewrite Hrun. exists w'.
    destruct (forallb _ commits); (split; [done|]); split; try done;
      by apply (unchanged_trans _ (tick (tick w))).
  - exists (tick (tick w)). done.
Qed.

Lemma forallb_valid_dates commits :
  Listing.dated commits = true
  ↔ Listing.valid_dates commits.
Proof.
  unfold Listing.valid_dates, Listing.dated. rewrite forallb_forall, Forall_forall.
  split; intros H x Hx; apply H; by apply list_elem_of_In.
Qed.

Lemma list_spec options w :
  ∃ cps w',
    CheckpointManager.list options w = (inr cps, w') ∧
    Restore.unchanged w w' ∧
    cps = match refs (repo w) !! "HEAD" with
          | None => []
          | Some head =>
              match Git.log_walk (objects (repo w))
                      (Listing.walkLength options (objects (repo w))) head with
              | inl _ => []
              | inr commits =>
                  if Listing.dated commits
                  then Listing.listed options
                         (JS.sort CheckpointManager.byTimestampDesc
                            (Listing.checkpoints_of (w_env w) (ticks w) (cwd w) commits))
                  else []
              end
          end.
Proof.
  apply wp_returns.
  unfold CheckpointManager.list, CheckpointManager.process_cwd, Git.log.
  wp_steps. world_rewrite.
  fold (Listing.depth options). fold (Listing.walkLength options (objects (repo w))).
  destruct (refs (repo w) !! "HEAD") as [head|]; [|wp_steps; split; [quiet_end|done]].
  destruct (Git.log_walk _ _ head) as [e|commits];
    [wp_steps; split; [quiet_end|done]|].
  wp_steps. world_rewrite.
  match goal with
  | |- wp (CheckpointManager.collect _ _) _ _ ?w1 =>
      destruct (collect_spec commits (cwd w) w1) as (w2 & Hrun & Hun & He & Hcwd);
      assert (Restore.unchanged w w1) as Hun1 by quiet_end
  end.
  pose proof (unchanged_trans _ _ _ Hun1 Hun) as Hun2.
  world_rewrite_in Hrun.
  destruct (Listing.dated commits).
  - eapply wp_of_eq; [exact Hrun|]. apply wp_ret. apply wp_ret.
    split; [done|]. by world_rewrite.
  - unfold wp. rewrite Hrun. apply wp_ret. apply wp_ret. done.
Qed.

Lemma slice0_short {A} (n : Z) (l : list A) :
  0 ≤ n → (List.length l ≤ Z.to_nat n)%nat → JS.slice0 n l = l.
Proof.
  intros Hn Hlen. unfold JS.slice0.
  destruct (Z.leb_spec 0 n); [|lia]. by apply take_ge.
Qed.

Lemma sort_length {A} (compare : A → A → Z) l :
  List.length (JS.sort compare l) = List.length l.
Proof. by rewrite (sort_perm compare). Qed.

(** [list] when the history from [HEAD] is [hist] and the limit, if any,
    is not negative: the depth of the walk is the limit, or a hundred
    without one. *)
Lemma list_history options w head hist :
  (∀ n, opt_limit options = Some n → 0 ≤ n) →
  refs (repo w) !! "HEAD" = Some head →
  Listing.history (objects (repo w)) head hist →
  Listing.valid_dates (take (Z.to_nat (Listing.depth options)) hist) →
  ∃ w',
    CheckpointManager.list options w
    = (inr (List.filter (Listing.sessionMatches options)
              (JS.sort CheckpointManager.byTimestampDesc
                 (Listing.checkpoints_of (w_env w) (ticks w) (cwd w)
                    (take (Z.to_nat (Listing.depth options)) hist)))),
       w') ∧
    Restore.unchanged w w'.
Proof.
  intros Hlimit Hhead Hhist Hvalid.
  destruct (list_spec options w) as (cps & w' & Hrun & Hun & ->).
  exists w'. split; [|done]. rewrite Hrun. do 2 f_equal.
  rewrite Hhead.
  assert (0 < Listing.depth options) as Hdepth.
  { unfold Listing.depth, JS.or_number, JS.truthy_number.
    destruct (opt_limit options) as [n|] eqn:Hn; [|done].
    specialize (Hlimit n eq_refl). destruct (Z.eqb_spec n 0); cbn [negb]; lia. }
  unfold Listing.walkLength. destruct (Z.ltb_spec 0 (Listing.depth options)); [|lia].
  rewrite (log_walk_history _ _ _ Hhist).
  apply forallb_valid_dates in Hvalid as ->.
  set (sorted := JS.sort _ _).
  assert (List.length sorted ≤ Z.to_nat (Listing.depth options))%nat as Hlen.
  { unfold sorted. rewrite sort_length, checkpoints_of_length, length_take. lia. }
  unfold Listing.listed, Listing.sessionMatches.
  assert ((if JS.truthy_string (opt_sessionId options)
           then List.filter
                  (λ cp, JS.startsWith (sessionId cp) (default "" (opt_sessionId options)))
                  sorted
           else sorted)
          = List.filter
              (λ cp, match opt_sessionId options with
                     | Some s => if decide (s = "") then true
                                 else JS.startsWith (sessionId cp) s
                     | None => true
                     end) sorted) as ->.
  { assert (∀ l : list CheckpointData, List.filter (λ _, true) l = l) as Hall.
    { intros l. induction l as [|x l IH]; [done|]. cbn [List.filter]. by rewrite IH. }
    destruct (opt_sessionId options) as [s|];
      cbn [JS.truthy_string default from_option Datatypes.id]; [|by rewrite Hall].
    destruct (String.eqb_spec s "") as [->|Hne]; cbn [negb].
    - rewrite <- (Hall sorted) at 1. apply filter_ext. intros cp.
      by rewrite decide_True.
    - apply filter_ext. intros cp. by rewrite decide_False. }
  set (filtered := List.filter _ sorted).
  destruct (JS.truthy_number (opt_limit options)) eqn:Htruthy; [|done].
  destruct (opt_limit options) as [n|] eqn:Hn; [|done].
  cbn [default from_option Datatypes.id].
  assert (Listing.depth options = n) as Hd.
  { unfold Listing.depth, JS.or_number. by rewrite Hn, Htruthy. }
  apply slice0_short; [by apply Hlimit|].
  rewrite <- Hd. etrans; [|exact Hlen]. unfold filtered.
  clear. induction sorted as [|x l IH]; [done|]. cbn [List.filter].
  destruct (match opt_sessionId options with Some _ => _ | None => _ end);
    cbn [List.length]; lia.
Qed.

End ListOptionsRuns.

(** ** [clean] *)

Section CleanRuns.

Lemma count_fold {A} (f : A → bool) (l : list A) : ∀ a : Z,
  fold_left (λ count x, if f x then count + 1 else count) l a
  = a + Z.of_nat (List.length (List.filter f l)).
Proof.
  induction l as [|x l IH]; intros a; cbn [fold_left List.filter List.length]; [lia|].
  rewrite IH. destruct (f x); cbn [List.length]; lia.
Qed.

Lemma clean_spec l days w :
  ∃ n w',
    CheckpointManager.clean l days w = (inr n, w') ∧
    Restore.unchanged w w' ∧
    n = match refs (repo w) !! "HEAD" with
        | None => 0
        | Some head =>
            match Git.log_walk (objects (repo w)) (size (objects (repo w))) head with
            | inl _ => 0
            | inr commits =>
                Z.of_nat (List.length
                            (List.filter (Cleaning.old (Cleaning.cutoff l w days)) commits))
            end
        end.
Proof.
  apply wp_returns.
  unfold CheckpointManager.clean, CheckpointManager.process_cwd, Git.log_all.
  wp_steps. world_rewrite.
  destruct (refs (repo w) !! "HEAD") as [head|]; [|wp_steps; split; [quiet_end|done]].
  destruct (Git.log_walk _ _ head) as [e|commits];
    wp_steps; (split; [quiet_end|]); [done|].
  by rewrite (count_fold (Cleaning.old (Cleaning.cutoff l w days))).
Qed.

End CleanRuns.

(** ** More on [create] *)

(** The run of [create] in the example project. *)
Lemma busy_run :
  CheckpointManager.create "fix" (Some "abc123") None Examples.busy
  = (inr Examples.busy_checkpoint, Examples.busy_after).
Proof.
  assert ((CheckpointManager.create "fix" (Some "abc123") None Examples.busy).1
          = inr Examples.busy_checkpoint) as Hcp by (vm_compute; reflexivity).
  unfold Examples.busy_after.
  destruct (CheckpointManager.create "fix" (Some "abc123") None Examples.busy) as [r w'].
  cbn [fst snd] in *. by subst r.
Qed.





(** X3: [create] only adds to the snapshots directory.  A file that the
    directory held and that the project no longer has (or that is not
    copied any more) is still there afterwards, with its old content, so it
    is part of the new checkpoint. *)
Theorem create_keeps_files_deleted_from_project (w : World) (msg : string)
    (sid : option string) (idx : option Z) (cp : CheckpointData) (w' : World)
    (p : list string) (content : string) :
  CheckpointManager.create msg sid idx w = (inr cp, w') →
  snapshots w !! p = Some content →
  project w !! p = None ∨ Creating.kept (cwd w) p = false →
  snapshots w' !! p = Some content.
Proof.
  intros Hrun Hsnap Hgone.
  destruct (create_commit w msg sid idx cp w' Hrun) as (seconds & _ & -> & _).
  rewrite synced_snapshots_lookup.
  destruct Hgone as [-> | ->]; [done|]. by destruct (project w !! p).
Qed.

Lemma create_keeps_files_deleted_from_project_witness :
  project Examples.busy !! ["old.txt"] = None ∧
  snapshots Examples.busy_after !! ["old.txt"] = Some "1".
Proof.
  assert (project Examples.busy !! ["old.txt"] = None) as Hgone
    by (vm_compute; reflexivity).
  split; [exact Hgone|].
  apply (create_keeps_files_deleted_from_project Examples.busy "fix" (Some "abc123") None
           Examples.busy_checkpoint Examples.busy_after ["old.txt"] "1" busy_run).
  - vm_compute; reflexivity.
  - left. exact Hgone.
Defined.

(** X4: which files [create] copies.  A file of the project goes to the
    snapshots directory, with its content, exactly when none of the eight
    ignore patterns occurs as a piece of text in its relative path nor in
    the name of the project directory; otherwise the snapshots directory
    keeps what it had at that path. *)
Theorem create_copies_unless_a_pattern_occurs (w : World) (msg : string)
    (sid : option string) (idx : option Z) (cp : CheckpointData) (w' : World)
    (p : list string) (content : string) :
  CheckpointManager.create msg sid idx w = (inr cp, w') →
  project w !! p = Some content →
  (Creating.named (Paths.join p) = false →
   Creating.named (Paths.basename_of_string (cwd w)) = false →
   snapshots w' !! p = Some content) ∧
  (Creating.named (Paths.join p) = true ∨
   Creating.named (Paths.basename_of_string (cwd w)) = true →
   snapshots w' !! p = snapshots w !! p).
Proof.
  intros Hrun Hp.
  destruct (create_commit w msg sid idx cp w' Hrun) as (seconds & _ & -> & _).
  rewrite synced_snapshots_lookup, Hp. unfold Creating.kept. split.
  - by intros -> ->.
  - intros [-> | ->]; [by rewrite andb_false_r | done].
Qed.

Lemma create_copies_unless_a_pattern_occurs_witness :
  snapshots Examples.busy_after !! ["src"; "main.ts"] = Some "main" ∧
  snapshots Examples.busy_after !! ["src"; "rebuild.ts"] = None ∧
  snapshots Examples.busy_after !! [".gitignore"] = None.
Proof.
  pose proof busy_run as Hrun.
  split; [|split].
  - apply (create_copies_unless_a_pattern_occurs _ _ _ _ _ _ ["src"; "main.ts"] "main" Hrun);
      vm_compute; reflexivity.
  - apply (create_copies_unless_a_pattern_occurs _ _ _ _ _ _ ["src"; "rebuild.ts"] "tool"
             Hrun); [vm_compute; reflexivity|]. left. vm_compute; reflexivity.
  - apply (create_copies_unless_a_pattern_occurs _ _ _ _ _ _ [".gitignore"] "dist" Hrun);
      [vm_compute; reflexivity|]. left. vm_compute; reflexivity.
Defined.

(** X5: the patterns [.env*] and [*.log] are compared as text, not as
    globs.  A file whose relative path has no star and none of
    [node_modules], [.git], [.ccheckpoint], [dist], [build], [.DS_Store]
    in it is copied by [create] (the name of the project directory being
    as plain), whatever its extension: [.env] and [debug.log] are
    checkpointed. *)
Theorem create_takes_patterns_literally (w : World) (msg : string)
    (sid : option string) (idx : option Z) (cp : CheckpointData) (w' : World)
    (p : list string) (content : string) :
  CheckpointManager.create msg sid idx w = (inr cp, w') →
  project w !! p = Some content →
  Creating.plain (Paths.join p) = true →
  Creating.plain (Paths.basename_of_string (cwd w)) = true →
  snapshots w' !! p = Some content.
Proof.
  intros Hrun Hp Hplain Hdir.
  destruct (create_commit w msg sid idx cp w' Hrun) as (seconds & _ & -> & _).
  rewrite synced_snapshots_lookup, Hp. unfold Creating.kept.
  by rewrite !plain_not_named.
Qed.

Lemma create_takes_patterns_literally_witness :
  snapshots Examples.busy_after !! [".env"] = Some "KEY=1" ∧
  snapshots Examples.busy_after !! ["debug.log"] = Some "log".
Proof.
  pose proof busy_run as Hrun.
  split.
  - apply (create_takes_patterns_literally _ _ _ _ _ _ [".env"] "KEY=1" Hrun);
      vm_compute; reflexivity.
  - apply (create_takes_patterns_literally _ _ _ _ _ _ ["debug.log"] "log" Hrun);
      vm_compute; reflexivity.
Defined.

(** ** More on [restore] and [cancelRestore] *)

Lemma getCurrentCheckpoint_run w :
  CheckpointManager.getCurrentCheckpoint w
  = (inr (refs (repo w) !! "HEAD"), add_event (GitResolveRef "HEAD") w).
Proof.
  unfold CheckpointManager.getCurrentCheckpoint, Git.resolveRef, try_catch, mbind, M_bind,
    emit, get_world, mret, M_ret, throw.
  cbn [repo add_event]. by destruct (refs (repo w) !! "HEAD").
Qed.

Lemma cancelRestore_partial w origHead :
  refs (repo w) !! "ORIG_HEAD" = Some origHead →
  match objects (repo w) !! origHead with Some (ObjCommit _) => False | _ => True end →
  ∃ w',
    CheckpointManager.cancelRestore w = (inl NoRestoreToCancel, w') ∧
    refs (repo w') = <["HEAD" := origHead]> (refs (repo w)) ∧
    objects (repo w') = objects (repo w) ∧
    project w' = project w ∧ snapshots w' = snapshots w.
Proof.
  intros Horig Hobj.
  destruct (wp_throws CheckpointManager.cancelRestore
              (λ e w', e = NoRestoreToCancel ∧
                       refs (repo w') = <["HEAD" := origHead]> (refs (repo w)) ∧
                       objects (repo w') = objects (repo w) ∧
                       project w' = project w ∧ snapshots w' = snapshots w) w)
    as (e & w' & Hrun & -> & H); [|eauto].
  unfold CheckpointManager.cancelRestore, Git.resolveRef, Git.writeRef, Git.checkout.
  wp_steps. world_rewrite. rewrite Horig. wp_steps. world_rewrite.
  destruct (objects (repo w) !! origHead) as [[| |c]|]; try done; wp_steps;
    by world_rewrite.
Qed.









(** X10: [cancelRestore] is not atomic.  When [ORIG_HEAD] names something
    that is not a stored commit, it fails with [No restore to cancel], but
    it has moved [HEAD] to that name first; the two directories are left
    as they were. *)
Theorem cancelRestore_moves_HEAD_before_failing (w : World) (origHead : string) :
  refs (repo w) !! "ORIG_HEAD" = Some origHead →
  (∀ c, objects (repo w) !! origHead ≠ Some (ObjCommit c)) →
  ∃ w',
    CheckpointManager.cancelRestore w = (inl NoRestoreToCancel, w') ∧
    refs (repo w') !! "HEAD" = Some origHead ∧
    project w' = project w ∧ snapshots w' = snapshots w.
Proof.
  intros Horig Hnot.
  destruct (cancelRestore_partial w origHead Horig) as (w' & Hrun & Hrefs & _ & Hp & Hs).
  { destruct (objects (repo w) !! origHead) as [[| |c]|] eqn:Ho; try done.
    by apply (Hnot c). }
  exists w'. repeat split; try done. rewrite Hrefs. apply lookup_insert_eq.
Qed.

Lemma cancelRestore_moves_HEAD_before_failing_witness :
  refs (repo Examples.dangling) !! "HEAD" = Some (Examples.oid 2) ∧
  ∃ w',
    CheckpointManager.cancelRestore Examples.dangling = (inl NoRestoreToCancel, w') ∧
    refs (repo w') !! "HEAD" = Some (Examples.oid 9) ∧
    project w' = project Examples.dangling ∧ snapshots w' = snapshots Examples.dangling.
Proof.
  split; [vm_compute; reflexivity|].
  apply (cancelRestore_moves_HEAD_before_failing Examples.dangling (Examples.oid 9)).
  - vm_compute; reflexivity.
  - intros c H. vm_compute in H. discriminate.
Defined.





(** ** A checkpoint made while an undo is pending *)

(** X21: a [create] made after a [restore] forks the history and does not
    close the undo.  The new commit has the restored commit as its
    parent; [cancelRestore] still succeeds afterwards and moves [HEAD]
    back to the commit it named before the restore, so the new checkpoint
    is no longer reachable from [HEAD], and the working tree is
    materialised from that older commit. *)
Theorem create_after_restore_forks_and_keeps_undo (w : World) (x fullId currentHead : string)
    (c ch : Commit) (w1 : World) (msg : string) (sid : option string) (idx : option Z)
    (cp : CheckpointData) (w2 : World) :
  Git.matching x (objects (repo w)) = [fullId] →
  objects (repo w) !! fullId = Some (ObjCommit c) →
  refs (repo w) !! "HEAD" = Some currentHead →
  objects (repo w) !! currentHead = Some (ObjCommit ch) →
  CheckpointManager.restore x w = (inr tt, w1) →
  CheckpointManager.create msg sid idx w1 = (inr cp, w2) →
  Creating.fresh_id w1 (id cp) →
  (∃ c', objects (repo w2) !! id cp = Some (ObjCommit c') ∧ c_parent c' = Some fullId) ∧
  refs (repo w2) !! "HEAD" = Some (id cp) ∧
  ∃ w3,
    CheckpointManager.cancelRestore w2 = (inr tt, w3) ∧
    refs (repo w3) !! "HEAD" = Some currentHead ∧
    project w3 = Restore.materialized (Restore.snapshot_of ch) (project w2).
Proof.
  intros Hmatch Hc Hhead Hch Hrestore Hcreate Hfresh.
  destruct (restore_ok w x fullId c currentHead Hmatch Hc Hhead)
    as (w1' & Hrun1 & _ & _ & Hrefs1 & Hobjs1 & _).
  rewrite Hrestore in Hrun1. injection Hrun1 as <-.
  destruct (create_commit w1 msg sid idx cp w2 Hcreate)
    as (seconds & _ & _ & _ & Hrefs2 & Hgrow & Hstored).
  specialize (Hstored Hfresh).
  split; [|split].
  - exists (Creating.commit_of w1 msg seconds). split; [done|].
    unfold Creating.commit_of. cbn [c_parent]. rewrite Hrefs1. apply lookup_insert_eq.
  - rewrite Hrefs2. apply lookup_insert_eq.
  - destruct (cancelRestore_ok w2 currentHead ch) as (w3 & Hrun3 & Hproj3 & _ & Hrefs3 & _).
    { rewrite Hrefs2, lookup_insert_ne by done.
      rewrite Hrefs1, lookup_insert_ne by done. apply lookup_insert_eq. }
    { apply Hgrow. by rewrite Hobjs1. }
    exists w3. repeat split; try done. rewrite Hrefs3. apply lookup_insert_eq.
Qed.

Lemma create_after_restore_forks_and_keeps_undo_witness :
  (∃ c', objects (repo Examples.forked) !! "commit:v3" = Some (ObjCommit c') ∧
         c_parent c' = Some (Examples.oid 1)) ∧
  refs (repo Examples.forked) !! "HEAD" = Some "commit:v3" ∧
  ∃ w3,
    CheckpointManager.cancelRestore Examples.forked = (inr tt, w3) ∧
    refs (repo w3) !! "HEAD" = Some (Examples.oid 2) ∧
    project w3 = Restore.materialized (Restore.snapshot_of Examples.v2)
                   (project Examples.forked).
Proof.
  assert (CheckpointManager.restore (Examples.oid 1) Examples.clean
          = (inr tt, Examples.restored)) as Hrestore.
  { assert ((CheckpointManager.restore (Examples.oid 1) Examples.clean).1 = inr tt) as Hok
      by (vm_compute; reflexivity).
    unfold Examples.restored.
    destruct (CheckpointManager.restore (Examples.oid 1) Examples.clean) as [r w1].
    cbn [fst snd] in *. by subst r. }
  assert (CheckpointManager.create "v3" None None Examples.restored
          = (inr Examples.forked_checkpoint, Examples.forked)) as Hcreate.
  { assert ((CheckpointManager.create "v3" None None Examples.restored).1
            = inr Examples.forked_checkpoint) as Hok by (vm_compute; reflexivity).
    unfold Examples.forked.
    destruct (CheckpointManager.create "v3" None None Examples.restored) as [r w2].
    cbn [fst snd] in *. by subst r. }
  apply (create_after_restore_forks_and_keeps_undo Examples.clean (Examples.oid 1)
           (Examples.oid 1) (Examples.oid 2) Examples.v1 Examples.v2 Examples.restored
           "v3" None None Examples.forked_checkpoint Examples.forked).
  - vm_compute; reflexivity.
  - vm_compute; reflexivity.
  - vm_compute; reflexivity.
  - vm_compute; reflexivity.
  - exact Hrestore.
  - exact Hcreate.
  - split; [vm_compute; reflexivity | split; intros y H; vm_compute in H; discriminate].
Defined.

(** ** More on [list] *)

(** X13: with a limit [n] of at least one and no session filter, [list]
    reads the [n] commits nearest to [HEAD] and returns their
    checkpoints, newest timestamp first: as many as the history has, up
    to [n]. *)
Theorem list_limit_reads_nearest_commits (w : World) (head : string)
    (hist : list (string * Commit)) (n : Z) :
  1 ≤ n →
  refs (repo w) !! "HEAD" = Some head →
  Listing.history (objects (repo w)) head hist →
  Listing.valid_dates (take (Z.to_nat n) hist) →
  ∃ cps w',
    CheckpointManager.list (mkListOptions None (Some n)) w = (inr cps, w') ∧
    cps ≡ₚ Listing.checkpoints_of (w_env w) (ticks w) (cwd w) (take (Z.to_nat n) hist) ∧
    Listing.newest_first cps ∧
    List.length cps = Nat.min (Z.to_nat n) (List.length hist).
Proof.
  intros Hn Hhead Hhist Hvalid.
  assert (Listing.depth (mkListOptions None (Some n)) = n) as Hd.
  { unfold Listing.depth, JS.or_number, JS.truthy_number. cbn [opt_limit].
    destruct (Z.eqb_spec n 0); [lia | done]. }
  destruct (list_history (mkListOptions None (Some n)) w head hist) as (w' & Hrun & _);
    try done.
  { cbn [opt_limit]. intros ? [= <-]. lia. }
  { by rewrite Hd. }
  rewrite Hd in Hrun. eexists _, w'. split; [exact Hrun|].
  set (sorted := JS.sort _ _).
  assert (List.filter (Listing.sessionMatches (mkListOptions None (Some n))) sorted = sorted)
    as ->.
  { unfold Listing.sessionMatches. cbn [opt_sessionId]. clear.
    induction sorted as [|x l IH]; [done|]. cbn [List.filter]. by rewrite IH. }
  unfold sorted. split; [apply sort_perm|]. split.
  - by apply (sort_sorted Listing.time).
  - rewrite sort_length, checkpoints_of_length, length_take. lia.
Qed.

Lemma list_limit_reads_nearest_commits_witness :
  ∃ cps w',
    CheckpointManager.list (mkListOptions None (Some 1)) Examples.clean = (inr cps, w') ∧
    cps ≡ₚ Listing.checkpoints_of (w_env Examples.clean) (ticks Examples.clean)
             (cwd Examples.clean) (take (Z.to_nat 1) Examples.clean_walk) ∧
    Listing.newest_first cps ∧
    List.length cps = Nat.min (Z.to_nat 1) (List.length Examples.clean_walk).
Proof.
  apply (list_limit_reads_nearest_commits Examples.clean (Examples.oid 2)
           Examples.clean_walk 1).
  - lia.
  - vm_compute; reflexivity.
  - apply (log_walk_complete _ 100%nat); [vm_compute; reflexivity | cbn; lia].
  - repeat constructor.
Defined.

(** X14: the session filter of [list] is applied after the walk has been
    cut.  With a session prefix [s] (and a limit that is not negative),
    [list] returns, newest timestamp first, the checkpoints whose session
    id starts with [s] among the commits within the depth of the walk
    (the limit, or a hundred without one): no checkpoint of a commit
    beyond that depth is returned, whatever its session. *)
Theorem list_filters_sessions_after_the_walk (w : World) (head : string)
    (hist : list (string * Commit)) (options : ListOptions) (s : string) :
  opt_sessionId options = Some s →
  s ≠ "" →
  (∀ n, opt_limit options = Some n → 0 ≤ n) →
  refs (repo w) !! "HEAD" = Some head →
  Listing.history (objects (repo w)) head hist →
  Listing.valid_dates (take (Z.to_nat (Listing.depth options)) hist) →
  ∃ cps w',
    CheckpointManager.list options w = (inr cps, w') ∧
    cps = List.filter (λ cp, JS.startsWith (sessionId cp) s)
            (JS.sort CheckpointManager.byTimestampDesc
               (Listing.checkpoints_of (w_env w) (ticks w) (cwd w)
                  (take (Z.to_nat (Listing.depth options)) hist))) ∧
    Listing.newest_first cps ∧
    (∀ oc, oc ∈ drop (Z.to_nat (Listing.depth options)) hist → oc.1 ∉ map id cps).
Proof.
  intros Hs Hne Hlimit Hhead Hhist Hvalid.
  destruct (list_history options w head hist) as (w' & Hrun & _); try done.
  eexists _, w'. split; [exact Hrun|].
  set (d := Z.to_nat (Listing.depth options)) in *.
  set (sorted := JS.sort _ _).
  assert (List.filter (Listing.sessionMatches options) sorted
          = List.filter (λ cp, JS.startsWith (sessionId cp) s) sorted) as ->.
  { apply filter_ext. intros cp. unfold Listing.sessionMatches.
    by rewrite Hs, decide_False. }
  split; [done|]. split.
  - unfold Listing.newest_first.
    assert (StronglySorted (λ a b, Listing.time b <= Listing.time a) sorted) as Hsorted
      by (by apply (sort_sorted Listing.time)).
    clear -Hsorted. induction Hsorted as [|x l Hl IH Hx]; [constructor|].
    cbn [List.filter]. destruct (JS.startsWith (sessionId x) s); [|done].
    constructor; [done|]. apply Forall_forall. intros y Hy.
    apply list_elem_of_In, filter_In in Hy as [Hy _].
    rewrite Forall_forall in Hx. by apply Hx, list_elem_of_In.
  - intros oc Hdrop Hin.
    apply list_elem_of_In, in_map_iff in Hin as (cp & Hid & Hcp).
    apply filter_In in Hcp as [Hcp _].
    assert (id cp ∈ map fst (take d hist)) as Htake.
    { rewrite <- (checkpoints_of_ids (w_env w) (cwd w) _ (ticks w)).
      apply list_elem_of_In, in_map_iff. exists cp. split; [done|].
      apply list_elem_of_In. rewrite <- (sort_perm CheckpointManager.byTimestampDesc).
      by apply list_elem_of_In. }
    pose proof (history_NoDup _ _ _ Hhist) as Hnodup.
    rewrite <- (take_drop d hist), map_app in Hnodup.
    apply NoDup_app in Hnodup as (_ & Hdisj & _).
    apply (Hdisj (id cp) Htake). rewrite Hid.
    apply list_elem_of_In, in_map_iff. exists oc. split; [done | by apply list_elem_of_In].
Qed.

Lemma list_filters_sessions_after_the_walk_witness :
  ∃ cps w',
    CheckpointManager.list (mkListOptions (Some "abc") (Some 2)) Examples.sessions
    = (inr cps, w') ∧
    cps = List.filter (λ cp, JS.startsWith (sessionId cp) "abc")
            (JS.sort CheckpointManager.byTimestampDesc
               (Listing.checkpoints_of (w_env Examples.sessions) (ticks Examples.sessions)
                  (cwd Examples.sessions)
                  (take (Z.to_nat (Listing.depth (mkListOptions (Some "abc") (Some 2))))
                     Examples.sessions_history))) ∧
    Listing.newest_first cps ∧
    (∀ oc, oc ∈ drop (Z.to_nat (Listing.depth (mkListOptions (Some "abc") (Some 2))))
                  Examples.sessions_history →
           oc.1 ∉ map id cps).
Proof.
  apply (list_filters_sessions_after_the_walk Examples.sessions (Examples.oid 3)
           Examples.sessions_history (mkListOptions (Some "abc") (Some 2)) "abc").
  - reflexivity.
  - discriminate.
  - intros n [= <-]. lia.
  - vm_compute; reflexivity.
  - apply (log_walk_complete _ 100%nat); [vm_compute; reflexivity | vm_compute; lia].
  - repeat constructor.
Defined.

(** X15: [list] never throws and changes nothing but the clock and the log
    of calls.  It returns the empty list when [HEAD] does not resolve,
    when a commit on the walk cannot be read, and when a commit on the
    walk carries a timestamp that is not a date. *)
Theorem list_returns_nothing_on_failure (options : ListOptions) (w : World) :
  ∃ cps w',
    CheckpointManager.list options w = (inr cps, w') ∧
    Restore.unchanged w w' ∧
    (refs (repo w) !! "HEAD" = None → cps = []) ∧
    (∀ head e,
       refs (repo w) !! "HEAD" = Some head →
       Git.log_walk (objects (repo w)) (Listing.walkLength options (objects (repo w))) head
       = inl e →
       cps = []) ∧
    (∀ head commits,
       refs (repo w) !! "HEAD" = Some head →
       Git.log_walk (objects (repo w)) (Listing.walkLength options (objects (repo w))) head
       = inr commits →
       Listing.dated commits = false →
       cps = []).
Proof.
  destruct (list_spec options w) as (cps & w' & Hrun & Hun & Hcps).
  exists cps, w'. split; [exact Hrun|]. rewrite Hcps. split; [done|]. repeat split.
  - by intros ->.
  - by intros head e -> ->.
  - by intros head commits -> -> ->.
Qed.

Lemma list_returns_nothing_on_failure_witness :
  ∃ cps w',
    CheckpointManager.list Listing.listAll Examples.undated = (inr cps, w') ∧
    Listing.dated Examples.undated_walk = false ∧
    cps = [].
Proof.
  destruct (list_returns_nothing_on_failure Listing.listAll Examples.undated)
    as (cps & w' & Hrun & _ & _ & _ & Hdate).
  exists cps, w'. split; [exact Hrun|]. split; [vm_compute; reflexivity|].
  apply (Hdate (Examples.oid 2) Examples.undated_walk); vm_compute; reflexivity.
Defined.

(** ** More on [diff] *)

(** X16: [diff] throws only when [HEAD] does not resolve, and then it
    throws the error of the library as it is; once [HEAD] resolves,
    [diff] returns, whatever the id it is given.  In both cases it
    changes nothing but the log of calls. *)
Theorem diff_throws_only_without_HEAD (x : string) (w : World) :
  (refs (repo w) !! "HEAD" = None →
   ∃ w', CheckpointManager.diff x w = (inl (Thrown (NotFoundError "HEAD")), w') ∧
         Restore.unchanged w w') ∧
  (∀ cur, refs (repo w) !! "HEAD" = Some cur →
          ∃ changes w', CheckpointManager.diff x w = (inr changes, w') ∧
                        Restore.unchanged w w').
Proof.
  split.
  - intros Hhead.
    destruct (wp_throws (CheckpointManager.diff x)
                (λ e w', e = Thrown (NotFoundError "HEAD") ∧ Restore.unchanged w w') w)
      as (e & w' & Hrun & -> & Hun); [|eauto].
    unfold CheckpointManager.diff, Git.resolveRef. wp_steps. world_rewrite.
    rewrite Hhead. wp_steps. split; [done | quiet_end].
  - intros cur Hhead.
    apply (wp_returns (CheckpointManager.diff x) (λ _ w', Restore.unchanged w w')).
    unfold CheckpointManager.diff, Git.resolveRef, Git.walk, Git.TREE.
    wp_steps. world_rewrite. rewrite Hhead. wp_steps.
    match goal with |- context [Git.tree_of ?r x] => destruct (Git.tree_of r x) end;
      wp_steps; [quiet_end|].
    match goal with |- context [Git.tree_of ?r cur] => destruct (Git.tree_of r cur) end;
      wp_steps; quiet_end.
Qed.

Lemma diff_throws_only_without_HEAD_witness :
  (refs (repo Examples.fresh) !! "HEAD" = None ∧
   ∃ w', CheckpointManager.diff (Examples.oid 1) Examples.fresh
         = (inl (Thrown (NotFoundError "HEAD")), w') ∧
         Restore.unchanged Examples.fresh w') ∧
  (refs (repo Examples.clean) !! "HEAD" = Some (Examples.oid 2) ∧
   ∃ changes w', CheckpointManager.diff "no such checkpoint" Examples.clean
                 = (inr changes, w') ∧
                 Restore.unchanged Examples.clean w').
Proof.
  assert (refs (repo Examples.fresh) !! "HEAD" = None) as Hnone
    by (vm_compute; reflexivity).
  assert (refs (repo Examples.clean) !! "HEAD" = Some (Examples.oid 2)) as Hsome
    by (vm_compute; reflexivity).
  split; (split; [done|]).
  - exact (proj1 (diff_throws_only_without_HEAD (Examples.oid 1) Examples.fresh) Hnone).
  - exact (proj2 (diff_throws_only_without_HEAD "no such checkpoint" Examples.clean)
             _ Hsome).
Defined.

(** ** The limit of [list] at its bounds *)

(** X19: a limit of zero is no limit.  [list] with [limit: 0] returns no
    empty list: it walks a hundred commits and cuts nothing, so it
    returns the checkpoints of the first hundred commits of the history,
    as [list] without a limit does. *)
Theorem list_limit_zero_is_no_limit (w : World) (head : string)
    (hist : list (string * Commit)) :
  refs (repo w) !! "HEAD" = Some head →
  Listing.history (objects (repo w)) head hist →
  Listing.valid_dates (take 100 hist) →
  ∃ cps w',
    CheckpointManager.list (mkListOptions None (Some 0)) w = (inr cps, w') ∧
    CheckpointManager.list (mkListOptions None None) w = (inr cps, w') ∧
    cps ≡ₚ Listing.checkpoints_of (w_env w) (ticks w) (cwd w) (take 100 hist) ∧
    List.length cps = Nat.min 100 (List.length hist).
Proof.
  intros Hhead Hhist Hvalid.
  destruct (list_history (mkListOptions None (Some 0)) w head hist) as (w' & Hrun & _);
    try done.
  { cbn [opt_limit]. by intros ? [= <-]. }
  change (Z.to_nat (Listing.depth (mkListOptions None (Some 0)))) with 100%nat in Hrun.
  eexists _, w'. split; [exact Hrun|]. split; [exact Hrun|].
  set (sorted := JS.sort _ _).
  assert (List.filter (Listing.sessionMatches (mkListOptions None (Some 0))) sorted = sorted)
    as ->.
  { unfold Listing.sessionMatches. cbn [opt_sessionId]. clear.
    induction sorted as [|x l IH]; [done|]. cbn [List.filter]. by rewrite IH. }
  unfold sorted. split; [apply sort_perm|].
  rewrite sort_length, checkpoints_of_length, length_take. lia.
Qed.

Lemma list_limit_zero_is_no_limit_witness :
  ∃ cps w',
    CheckpointManager.list (mkListOptions None (Some 0)) Examples.clean = (inr cps, w') ∧
    CheckpointManager.list (mkListOptions None None) Examples.clean = (inr cps, w') ∧
    cps ≡ₚ Listing.checkpoints_of (w_env Examples.clean) (ticks Examples.clean)
             (cwd Examples.clean) (take 100 Examples.clean_walk) ∧
    List.length cps = Nat.min 100 (List.length Examples.clean_walk).
Proof.
  apply (list_limit_zero_is_no_limit Examples.clean (Examples.oid 2) Examples.clean_walk).
  - vm_compute; reflexivity.
  - apply (log_walk_complete _ 100%nat); [vm_compute; reflexivity | cbn; lia].
  - repeat constructor.
Defined.

(** X20: with [limit: 1], [list] returns exactly the checkpoint of the
    commit that [HEAD] names, the one whose id [getCurrentCheckpoint]
    returns, with the session and the text read in its message; the
    parent of that commit is not even read. *)
Theorem list_limit_one_is_current_checkpoint (w : World) (head : string) (c : Commit) :
  refs (repo w) !! "HEAD" = Some head →
  objects (repo w) !! head = Some (ObjCommit c) →
  JS.validTime (c_timestamp c * 1000) = true →
  ∃ cp w1 w2,
    CheckpointManager.list (mkListOptions None (Some 1)) w = (inr [cp], w1) ∧
    CheckpointManager.getCurrentCheckpoint w1 = (inr (Some (id cp)), w2) ∧
    id cp = head ∧
    sessionId cp = (Listing.parsed (c_message c)).1 ∧
    message cp = (Listing.parsed (c_message c)).2.
Proof.
  intros Hhead Hc Hdate.
  destruct (list_spec (mkListOptions None (Some 1)) w) as (cps & w1 & Hrun & Hun & Hcps).
  rewrite Hhead in Hcps.
  assert (Git.log_walk (objects (repo w))
            (Listing.walkLength (mkListOptions None (Some 1)) (objects (repo w))) head
          = inr [(head, c)]) as Hwalk.
  { change (Listing.walkLength _ _) with 1%nat. cbn [Git.log_walk]. rewrite Hc.
    by destruct (c_parent c). }
  rewrite Hwalk in Hcps. unfold Listing.dated in Hcps. cbn [forallb fst snd] in Hcps.
  rewrite Hdate in Hcps. cbn [andb] in Hcps.
  exists (Listing.checkpoint_of (w_env w) (ticks w) (cwd w) (head, c)), w1,
    (add_event (GitResolveRef "HEAD") w1).
  split; [by rewrite Hrun, Hcps|]. split; [|done].
  rewrite getCurrentCheckpoint_run. destruct Hun as (_ & _ & ->). by rewrite Hhead.
Qed.

Lemma list_limit_one_is_current_checkpoint_witness :
  ∃ cp w1 w2,
    CheckpointManager.list (mkListOptions None (Some 1)) Examples.sessions = (inr [cp], w1) ∧
    CheckpointManager.getCurrentCheckpoint w1 = (inr (Some (id cp)), w2) ∧
    id cp = Examples.oid 3 ∧
    sessionId cp = (Listing.parsed "Session: abd00000 - refactor").1 ∧
    message cp = (Listing.parsed "Session: abd00000 - refactor").2.
Proof.
  apply (list_limit_one_is_current_checkpoint Examples.sessions (Examples.oid 3)
           (mkCommit ∅ (Some (Examples.oid 2)) "Session: abd00000 - refactor" 1700000120));
    vm_compute; reflexivity.
Defined.

(** ** [clean] *)

(** X17: [clean] removes nothing.  It returns the number of commits of the
    whole history from [HEAD] that are dated before the cutoff ([days]
    days before now, in local time) and leaves the refs, the stored
    commits and both directories as they were.  The count is zero when
    [HEAD] does not resolve and when [days] is not a number. *)
Theorem clean_counts_and_removes_nothing (l : Locale) (days : option Z) (w : World) :
  ∃ n w',
    CheckpointManager.clean l days w = (inr n, w') ∧
    Restore.unchanged w w' ∧
    (refs (repo w) !! "HEAD" = None → n = 0) ∧
    (days = None → n = 0) ∧
    (∀ head hist,
       refs (repo w) !! "HEAD" = Some head →
       Listing.history (objects (repo w)) head hist →
       n = Z.of_nat (List.length
                       (List.filter (Cleaning.old (Cleaning.cutoff l w days)) hist))).
Proof.
  destruct (clean_spec l days w) as (n & w' & Hrun & Hun & Hn).
  exists n, w'. split; [done|]. split; [done|]. rewrite Hn. repeat split.
  - by intros ->.
  - intros ->. destruct (refs (repo w) !! "HEAD") as [head|]; [|done].
    destruct (Git.log_walk _ _ head) as [e|commits]; [done|].
    assert (∀ oc, Cleaning.old (Cleaning.cutoff l w None) oc = false) as Hold.
    { intros oc. unfold Cleaning.old, Cleaning.cutoff, Dates.setDate_daysBefore, Dates.lt.
      by destruct (Dates.timeClip _). }
    assert (List.filter (Cleaning.old (Cleaning.cutoff l w None)) commits = []) as ->;
      [|done].
    clear -Hold. induction commits as [|oc commits IH]; [done|].
    cbn [List.filter]. by rewrite Hold.
  - intros head hist -> Hhist. by rewrite (log_walk_all _ _ _ Hhist).
Qed.

Lemma clean_counts_and_removes_nothing_witness :
  ∃ n w',
    CheckpointManager.clean Examples.utc (Some (-1)) Examples.clean = (inr n, w') ∧
    Restore.unchanged Examples.clean w' ∧
    n = 2.
Proof.
  destruct (clean_counts_and_removes_nothing Examples.utc (Some (-1)) Examples.clean)
    as (n & w' & Hrun & Hun & _ & _ & Hcount).
  exists n, w'. split; [exact Hrun|]. split; [exact Hun|].
  rewrite (Hcount (Examples.oid 2) Examples.clean_walk).
  - vm_compute; reflexivity.
  - vm_compute; reflexivity.
  - apply (log_walk_complete _ 100%nat); [vm_compute; reflexivity | cbn; lia].
Defined.

(** ** The relative time of the command line *)

(** X18: the text [getTimeAgo] shows for a checkpoint made [elapsed]
    milliseconds before now.  Under one minute (and for a timestamp in
    the future) it is [just now]; then the whole number of minutes, of
    hours or of days that have elapsed, from [2] to [59] minutes, [2] to
    [23] hours and [2] to [6] days, with the singular forms for one; from
    seven days on, the date in the format of the host. *)
Theorem getTimeAgo_shows_whole_units (l : Locale) (past : Z) (w : World) :
  let elapsed := clock (w_env w) (ticks w) - past in
  ∃ text,
    Cli.getTimeAgo l (JS.Iso past) w = (inr text, tick w) ∧
    (elapsed < 60000 → text = "just now") ∧
    (60000 ≤ elapsed < 120000 → text = "1 minute ago") ∧
    (120000 ≤ elapsed < 3600000 →
     text = pretty (elapsed `div` 60000) +:+ " minutes ago" ∧
     2 ≤ elapsed `div` 60000 ≤ 59) ∧
    (3600000 ≤ elapsed < 7200000 → text = "1 hour ago") ∧
    (7200000 ≤ elapsed < 86400000 →
     text = pretty (elapsed `div` 3600000) +:+ " hours ago" ∧
     2 ≤ elapsed `div` 3600000 ≤ 23) ∧
    (86400000 ≤ elapsed < 172800000 → text = "1 day ago") ∧
    (172800000 ≤ elapsed < 604800000 →
     text = pretty (elapsed `div` 86400000) +:+ " days ago" ∧
     2 ≤ elapsed `div` 86400000 ≤ 6) ∧
    (604800000 ≤ elapsed → text = toLocaleDateString l past).
Proof.
  intros elapsed. eexists. split; [reflexivity|].
  cbn [JS.getTime]. fold elapsed.
  assert ((elapsed `div` 1000) `div` 60 = elapsed `div` 60000) as Hmin
    by (rewrite Z.div_div by lia; reflexivity).
  assert (((elapsed `div` 1000) `div` 60) `div` 60 = elapsed `div` 3600000) as Hhour
    by (rewrite Hmin, Z.div_div by lia; reflexivity).
  assert ((((elapsed `div` 1000) `div` 60) `div` 60) `div` 24 = elapsed `div` 86400000) as Hday
    by (rewrite Hhour, Z.div_div by lia; reflexivity).
  rewrite Hday, Hhour, Hmin.
  pose proof (Z.div_mod elapsed 1000 ltac:(lia)) as Hs.
  pose proof (Z.mod_pos_bound elapsed 1000 ltac:(lia)) as Hsb.
  pose proof (Z.div_mod elapsed 60000 ltac:(lia)) as Hm.
  pose proof (Z.mod_pos_bound elapsed 60000 ltac:(lia)) as Hmb.
  pose proof (Z.div_mod elapsed 3600000 ltac:(lia)) as Hh.
  pose proof (Z.mod_pos_bound elapsed 3600000 ltac:(lia)) as Hhb.
  pose proof (Z.div_mod elapsed 86400000 ltac:(lia)) as Hd.
  pose proof (Z.mod_pos_bound elapsed 86400000 ltac:(lia)) as Hdb.
  destruct (Z.ltb_spec (elapsed `div` 1000) 60);
    [repeat split; intros; first [done | lia]|].
  destruct (Z.eqb_spec (elapsed `div` 60000) 1);
    [repeat split; intros; first [done | lia]|].
  destruct (Z.ltb_spec (elapsed `div` 60000) 60);
    [repeat split; intros; first [done | lia]|].
  destruct (Z.eqb_spec (elapsed `div` 3600000) 1);
    [repeat split; intros; first [done | lia]|].
  destruct (Z.ltb_spec (elapsed `div` 3600000) 24);
    [repeat split; intros; first [done | lia]|].
  destruct (Z.eqb_spec (elapsed `div` 86400000) 1);
    [repeat split; intros; first [done | lia]|].
  destruct (Z.ltb_spec (elapsed `div` 86400000) 7);
    repeat split; intros; first [done | lia].
Qed.

Lemma getTimeAgo_shows_whole_units_witness :
  Cli.getTimeAgo Examples.utc (JS.Iso 1699999700000) Examples.clean
  = (inr "5 minutes ago", tick Examples.clean).
Proof.
  destruct (getTimeAgo_shows_whole_units Examples.utc 1699999700000 Examples.clean)
    as (text & Hrun & _ & _ & Hminutes & _).
  rewrite Hrun. destruct Hminutes as [-> _];
    [vm_compute; split; [discriminate | reflexivity]|].
  reflexivity.
Defined.
